(** * Trip-Budget-tracker: the Express server and its Mongoose models

    A shallow embedding of [server.js], [models/User.js] and
    [models/Trip.js].  The document store is explicit state (one finite
    map per collection, keyed by [_id]); a route handler is a function
    from the store to a new store and an HTTP response; JavaScript
    exceptions are an error value threaded through a small monad, and
    each handler's [try { ... } catch (err) { ... }] is [try_catch].

    The third-party packages the server calls (jsonwebtoken, bcryptjs,
    validator, multer, the casting rules of Mongoose, [path.extname])
    are the fields of the class [Platform]; the values a request draws
    from its environment ([Date.now()], a fresh [ObjectId], a salt,
    [Math.random()]) are the fields of [ambient]. *)

From Stdlib Require Import ZArith Ascii String.
From stdpp Require Import base option list strings pretty gmap fin_maps.

#[local] Set Warnings "-register-all".
#[local] Open Scope string_scope.

(* ===================================================================== *)
(** ** JavaScript values and errors *)
(* ===================================================================== *)

(** Values as [express.json()] and [jwt.verify] produce them.  The
    handlers store and return numbers and never compute with them, so a
    number is represented by an integer. *)
Inductive jsval : Type :=
| JUndefined
| JNull
| JBool (b : bool)
| JNum (n : Z)
| JStr (s : string)
| JArr (items : list jsval)
| JObj (props : gmap string jsval).

Abbreviation ObjectId := string (only parsing).

(** The errors that can be thrown while a request is served. *)
Inductive error : Type :=
| TypeError            (* property read on null or undefined *)
| CastError            (* Mongoose: a query value does not cast *)
| ValidationError      (* Mongoose: document validation failed *)
| MongoServerError     (* duplicate key on insert *)
| MulterError          (* LIMIT_FILE_SIZE, LIMIT_UNEXPECTED_FILE *)
| PlainError (message : string).  (* new Error(message) *)

(** [err.name] *)
Definition name (e : error) : string :=
  match e with
  | TypeError => "TypeError"
  | CastError => "CastError"
  | ValidationError => "ValidationError"
  | MongoServerError => "MongoServerError"
  | MulterError => "MulterError"
  | PlainError _ => "Error"
  end.

Inductive completion (A : Type) : Type :=
| Normal (a : A)
| Throw (e : error).
Arguments Normal {A} a.
Arguments Throw {A} e.

(** [v.k] for the property names the server reads ([user], [id]): a
    [TypeError] on [undefined] and [null], the property of an object,
    [undefined] on any other value. *)
Definition get_prop (v : jsval) (k : string) : completion jsval :=
  match v with
  | JUndefined | JNull => Throw TypeError
  | JObj props => Normal (default JUndefined (props !! k))
  | _ => Normal JUndefined
  end.

(** [s !== v] for a string [s]: equal only to the same string. *)
Definition strict_neq (s : string) (v : jsval) : bool :=
  match v with
  | JStr s' => negb (bool_decide (s = s'))
  | _ => true
  end.

(** [String.prototype.startsWith] *)
Definition startsWith (s pre : string) : bool := String.prefix pre s.

Fixpoint string_drop (n : nat) (s : string) : string :=
  match n, s with
  | O, _ => s
  | S n', String _ s' => string_drop n' s'
  | S _, EmptyString => EmptyString
  end.

(** [s.replace(pat, rep)] with a string pattern: the first occurrence of
    [pat] in [s] is replaced, wherever it stands. *)
Fixpoint replace (s pat rep : string) : string :=
  if String.prefix pat s then rep +:+ string_drop (String.length pat) s
  else match s with
       | EmptyString => EmptyString
       | String c s' => String c (replace s' pat rep)
       end.

(** [pat] occurs somewhere in [s]. *)
Fixpoint occurs (pat s : string) : bool :=
  String.prefix pat s ||
  match s with
  | EmptyString => false
  | String _ s' => occurs pat s'
  end.

(* ===================================================================== *)
(** ** Mongoose: casting, documents, collections *)
(* ===================================================================== *)

(** The outcome of casting a value to a schema type: a cast error, a
    nullish value kept as it is, or the cast value. *)
Inductive cast (A : Type) : Type :=
| CastFails
| Nullish
| Casted (a : A).
Arguments CastFails {A}.
Arguments Nullish {A}.
Arguments Casted {A} a.

(** The packages the server is linked against. *)
Class Platform : Type := {
  (** [jwt.verify(token, JWT_SECRET)] at a given time: the decoded
      payload, or nothing when it throws. *)
  jwt_verify : Z -> string -> option jsval;
  (** [jwt.sign(payload, JWT_SECRET, { expiresIn: '1h' })] at a given time *)
  jwt_sign : Z -> jsval -> string;
  (** [bcrypt.hash(s, salt)] and [bcrypt.compare(s, hash)] on strings *)
  bcrypt_hash : string -> string -> string;
  bcrypt_compare : string -> string -> bool;
  (** [validator.isEmail] *)
  isEmail : string -> bool;
  (** the [lowercase] and [trim] setters of a String path *)
  toLowerCase : string -> string;
  trim : string -> string;
  (** [path.extname] *)
  extname : string -> string;
  (** Mongoose casts of the values that are neither nullish nor already
      of the schema type *)
  castStringOther : jsval -> cast string;
  castNumberOther : jsval -> cast Z;
  castDateOther : jsval -> cast Z;
  castObjectIdOther : jsval -> cast ObjectId;
  (** the condition on a String path that Mongoose makes of a filter
      value that is an object of query operators ([$ne], [$gt], ...) or
      an array (taken as [$in]), as a test of the stored value; nothing
      when the filter does not cast *)
  queryStringOther : jsval -> option (string -> bool);
  (** whether the [enum] validator of a String path accepts [null] *)
  enumAcceptsNull : bool
}.

(** What one request draws from its environment. *)
Record ambient : Type := {
  now : Z;                 (* Date.now() *)
  fresh : ObjectId;        (* the _id of the document made by [new] *)
  salt : string;           (* bcrypt.genSalt(10) *)
  random : Z               (* Math.round(Math.random() * 1E9) *)
}.

Section Mongoose.
Context `{Platform}.

(** A plain object and an array do not cast to a string. *)
Definition castString (v : jsval) : cast string :=
  match v with
  | JUndefined | JNull => Nullish
  | JStr s => Casted s
  | JObj _ | JArr _ => CastFails
  | _ => castStringOther v
  end.

Definition castNumber (v : jsval) : cast Z :=
  match v with
  | JUndefined | JNull => Nullish
  | JNum n => Casted n
  | _ => castNumberOther v
  end.

Definition castDate (v : jsval) : cast Z :=
  match v with
  | JUndefined | JNull => Nullish
  | _ => castDateOther v
  end.

Definition castObjectId (v : jsval) : cast ObjectId :=
  match v with
  | JUndefined | JNull => Nullish
  | _ => castObjectIdOther v
  end.

(** A schema default replaces [undefined] only. *)
Definition with_default (v dflt : jsval) : jsval :=
  match v with
  | JUndefined => dflt
  | _ => v
  end.

(** [required: true]: the path holds a value. *)
Definition required {A : Type} (c : cast A) : option A :=
  match c with
  | Casted a => Some a
  | _ => None
  end.

(** [required: true] on a String path: the empty string fails too. *)
Definition required_string (c : cast string) : option string :=
  match c with
  | Casted s => if bool_decide (s = "") then None else Some s
  | _ => None
  end.

(** A path that is not required: only a cast error fails validation. *)
Definition optional {A : Type} (c : cast A) : option (option A) :=
  match c with
  | CastFails => None
  | Nullish => Some None
  | Casted a => Some (Some a)
  end.

End Mongoose.

(** A hydrated document: the fields of the schema and the [_id]. *)
Record document (A : Type) : Type := Doc { _id : ObjectId; fields : A }.
Arguments Doc {A} _id fields.
Arguments _id {A} d.
Arguments fields {A} d.

(** [doc.id], the string form of [_id]; [ObjectId.prototype.toString]. *)
Definition id {A : Type} (d : document A) : string := _id d.
Definition toString (o : ObjectId) : string := o.

(* ===================================================================== *)
(** ** models/User.js and models/Trip.js *)
(* ===================================================================== *)

Module User.
(** A stored user: every path of [UserSchema]. *)
Record t : Type := Build {
  username : string;
  email : string;
  password : string;
  profilePicture : string;
  createdAt : Z
}.

(** The in-memory document [new User({ username, email, password })]
    before validation, after casting and the setters. *)
Record draft : Type := Draft {
  d_username : cast string;
  d_email : cast string;
  d_password : cast string;
  d_createdAt : Z
}.
End User.

Module Expense.
Inductive Category : Type :=
| Lodging | Transportation | Food | Entertainment | Insurance | Other.

Record t : Type := Build {
  description : string;
  amount : Z;
  category : option Category;
  date : option Z
}.
End Expense.

Module Trip.
Record t : Type := Build {
  user : ObjectId;
  destination : string;
  budget : Z;
  startDate : option Z;
  expenses : list (document Expense.t)
}.
End Trip.

(** The two collections of the database. *)
Record db : Type := Db {
  users : gmap ObjectId User.t;
  trips : gmap ObjectId Trip.t
}.

Definition set_users (us : gmap ObjectId User.t) (st : db) : db :=
  {| users := us; trips := trips st |}.
Definition set_trips (ts : gmap ObjectId Trip.t) (st : db) : db :=
  {| users := users st; trips := ts |}.

(* ===================================================================== *)
(** ** Store operations with exceptions *)
(* ===================================================================== *)

(** A computation that reads and writes the store and either returns or
    throws; what was written before a throw stays written. *)
Definition io (A : Type) : Type := db -> db * completion A.

Definition ret {A : Type} (a : A) : io A := fun st => (st, Normal a).
Definition throw {A : Type} (e : error) : io A := fun st => (st, Throw e).
Definition bind {A B : Type} (m : io A) (k : A -> io B) : io B :=
  fun st =>
    match m st with
    | (st', Normal a) => k a st'
    | (st', Throw e) => (st', Throw e)
    end.
Definition lift {A : Type} (c : completion A) : io A := fun st => (st, c).
Definition read {A : Type} (f : db -> A) : io A := fun st => (st, Normal (f st)).
Definition write (f : db -> db) : io unit := fun st => (f st, Normal tt).

(** [try { body } catch (err) { handler(err) }] *)
Definition try_catch {A : Type} (body : io A) (handler : error -> io A) : io A :=
  fun st =>
    match body st with
    | (st', Normal a) => (st', Normal a)
    | (st', Throw e) => handler e st'
    end.

Declare Scope io_scope.
Delimit Scope io_scope with io.
Notation "x <- m ;; k" := (bind m (fun x => k))
  (at level 100, m at next level, right associativity) : io_scope.
Notation "m ;;; k" := (bind m (fun _ => k))
  (at level 100, right associativity) : io_scope.

(* ===================================================================== *)
(** ** Model methods: queries and saves *)
(* ===================================================================== *)

Section Collections.
Context {A : Type}.

(** [Model.find(filter)]: the documents that satisfy the filter. *)
Definition find (p : A -> bool) (c : gmap ObjectId A) : list (document A) :=
  (λ kv, Doc kv.1 kv.2) <$> filter (λ kv, p kv.2 = true) (map_to_list c).

(** [Model.findOne(filter)]: one of them, or [null]. *)
Definition findOne (p : A -> bool) (c : gmap ObjectId A) : option (document A) :=
  head (find p c).

(** [Model.findById(id)] once [id] is cast. *)
Definition findById (k : ObjectId) (c : gmap ObjectId A) : option (document A) :=
  Doc k <$> c !! k.

End Collections.

Section Models.
Context `{Platform}.

(** *** User *)

Definition map_cast {A B : Type} (f : A -> B) (c : cast A) : cast B :=
  match c with
  | CastFails => CastFails
  | Nullish => Nullish
  | Casted a => Casted (f a)
  end.

(** [new User({ username, email, password })]: each path is cast and its
    setter ([trim], [lowercase]) applied; [createdAt] takes its default. *)
Definition new_User (env : ambient) (username email password : jsval)
  : document User.draft :=
  Doc (fresh env)
      {| User.d_username := map_cast trim (castString username);
         User.d_email := map_cast toLowerCase (castString email);
         User.d_password := castString password;
         User.d_createdAt := now env |}.

(** [user.password = hashed] *)
Definition set_password (u : document User.draft) (hashed : string)
  : document User.draft :=
  Doc (_id u)
      {| User.d_username := User.d_username (fields u);
         User.d_email := User.d_email (fields u);
         User.d_password := Casted hashed;
         User.d_createdAt := User.d_createdAt (fields u) |}.

(** Validation against [UserSchema]: the three required paths and the
    [validator.isEmail] validator of [email]. *)
Definition UserSchema_validate (d : User.draft) : option User.t :=
  username ← required_string (User.d_username d);
  email ← required_string (User.d_email d);
  password ← required_string (User.d_password d);
  if isEmail email
  then Some (User.Build username email password "" (User.d_createdAt d))
  else None.

(** The filter [{ email }] once Mongoose has cast it.  A value that
    casts to a string is lower-cased like the path it queries and
    compared with the stored address; a nullish value matches no stored
    user; an object or an array is a condition of query operators. *)
Definition email_filter (email : jsval) : completion (User.t -> bool) :=
  match email with
  | JObj _ | JArr _ =>
      match queryStringOther email with
      | Some p => Normal (λ u, p (User.email u))
      | None => Throw CastError
      end
  | _ =>
      match castString email with
      | CastFails => Throw CastError
      | Nullish => Normal (λ _, false)
      | Casted e => Normal (λ u, bool_decide (User.email u = toLowerCase e))
      end
  end.

(** [User.findOne({ email })] *)
Definition User_findOne (email : jsval) : io (option (document User.t)) :=
  match email_filter email with
  | Throw e => throw e
  | Normal p => read (λ st, findOne p (users st))
  end.

(** [User.findById(id)] *)
Definition User_findById (v : jsval) : io (option (document User.t)) :=
  match castObjectId v with
  | CastFails => throw CastError
  | Nullish => ret None
  | Casted k => read (λ st, findById k (users st))
  end.

(** [user.save()] on a new document: validate, then insert; the insert
    fails on a duplicate [_id] or on the unique index of [email]. *)
Definition User_save_new (d : document User.draft) : io (document User.t) :=
  match UserSchema_validate (fields d) with
  | None => throw ValidationError
  | Some u =>
      (taken <- read (λ st,
         bool_decide (is_Some (users st !! _id d)) ||
         bool_decide (is_Some (findOne (λ u', bool_decide (User.email u' = User.email u))
                                       (users st))));;
       if taken : bool then throw MongoServerError
       else write (λ st, set_users (<[_id d := u]> (users st)) st);;;
            ret (Doc (_id d) u))%io
  end.

(** [user.save()] on a document read from the store. *)
Definition User_save (d : document User.t) : io (document User.t) :=
  (write (λ st, set_users (<[_id d := fields d]> (users st)) st);;;
   ret d)%io.

(** [user.profilePicture = path] *)
Definition set_profilePicture (d : document User.t) (path : string)
  : document User.t :=
  Doc (_id d)
      {| User.username := User.username (fields d);
         User.email := User.email (fields d);
         User.password := User.password (fields d);
         User.profilePicture := path;
         User.createdAt := User.createdAt (fields d) |}.

(** *** Trip and Expense *)

Record Trip_draft : Type := {
  d_user : cast ObjectId;
  d_destination : cast string;
  d_budget : cast Z;
  d_startDate : cast Z
}.

(** [new Trip({ destination, budget, startDate, user })] *)
Definition new_Trip (env : ambient) (destination budget startDate user : jsval)
  : document Trip_draft :=
  Doc (fresh env)
      {| d_user := castObjectId user;
         d_destination := castString destination;
         d_budget := castNumber budget;
         d_startDate := castDate startDate |}.

(** Validation against [TripSchema]; [expenses] defaults to the empty
    array. *)
Definition TripSchema_validate (d : Trip_draft) : option Trip.t :=
  user ← required (d_user d);
  destination ← required_string (d_destination d);
  budget ← required (d_budget d);
  startDate ← optional (d_startDate d);
  Some (Trip.Build user destination budget startDate []).

(** [newTrip.save()] *)
Definition Trip_save_new (d : document Trip_draft) : io (document Trip.t) :=
  match TripSchema_validate (fields d) with
  | None => throw ValidationError
  | Some t =>
      (taken <- read (λ st, bool_decide (is_Some (trips st !! _id d)));;
       if taken : bool then throw MongoServerError
       else write (λ st, set_trips (<[_id d := t]> (trips st)) st);;;
            ret (Doc (_id d) t))%io
  end.

(** [Trip.findById(id)] *)
Definition Trip_findById (v : jsval) : io (option (document Trip.t)) :=
  match castObjectId v with
  | CastFails => throw CastError
  | Nullish => ret None
  | Casted k => read (λ st, findById k (trips st))
  end.

(** [Trip.find({ user: id })] *)
Definition Trip_find_user (v : jsval) : io (list (document Trip.t)) :=
  match castObjectId v with
  | CastFails => throw CastError
  | Nullish => ret []
  | Casted k => read (λ st, find (λ t, bool_decide (Trip.user t = k)) (trips st))
  end.

Definition category_of_string (s : string) : option Expense.Category :=
  if bool_decide (s = "Lodging") then Some Expense.Lodging
  else if bool_decide (s = "Transportation") then Some Expense.Transportation
  else if bool_decide (s = "Food") then Some Expense.Food
  else if bool_decide (s = "Entertainment") then Some Expense.Entertainment
  else if bool_decide (s = "Insurance") then Some Expense.Insurance
  else if bool_decide (s = "Other") then Some Expense.Other
  else None.

Record Expense_draft : Type := {
  d_description : cast string;
  d_amount : cast Z;
  d_category : cast string;
  d_date : cast Z
}.

Definition prop (o : gmap string jsval) (k : string) : jsval :=
  default JUndefined (o !! k).

(** The subdocument that [trip.expenses.push(obj)] makes of [obj]:
    each path of [ExpenseSchema] cast, [category] and [date] with
    their defaults. *)
Definition new_Expense (env : ambient) (obj : gmap string jsval)
  : document Expense_draft :=
  Doc (fresh env)
      {| d_description := castString (prop obj "description");
         d_amount := castNumber (prop obj "amount");
         d_category := castString (with_default (prop obj "category") (JStr "Other"));
         d_date := castDate (with_default (prop obj "date") (JNum (now env))) |}.

(** The [enum] validator of [category]. *)
Definition enum_category (c : cast string) : option (option Expense.Category) :=
  match c with
  | CastFails => None
  | Nullish => if enumAcceptsNull then Some None else None
  | Casted s => Some <$> category_of_string s
  end.

Definition ExpenseSchema_validate (d : Expense_draft) : option Expense.t :=
  description ← required_string (d_description d);
  amount ← required (d_amount d);
  category ← enum_category (d_category d);
  date ← optional (d_date d);
  Some (Expense.Build description amount category date).

(** [trip.expenses.push(obj)] on a validated subdocument. *)
Definition push (t : document Trip.t) (e : document Expense.t) : document Trip.t :=
  Doc (_id t)
      {| Trip.user := Trip.user (fields t);
         Trip.destination := Trip.destination (fields t);
         Trip.budget := Trip.budget (fields t);
         Trip.startDate := Trip.startDate (fields t);
         Trip.expenses := Trip.expenses (fields t) ++ [e] |}.

(** The subdocument [obj] becomes once it has passed validation. *)
Definition pushed (env : ambient) (obj : gmap string jsval)
  : option (document Expense.t) :=
  let sub := new_Expense env obj in
  Doc (_id sub) <$> ExpenseSchema_validate (fields sub).

(** [trip.expenses.push(obj); await trip.save()]: the pushed
    subdocument is validated, then the trip is written back. *)
Definition Trip_push_save (env : ambient) (t : document Trip.t)
    (obj : gmap string jsval) : io (document Trip.t) :=
  match pushed env obj with
  | None => throw ValidationError
  | Some e =>
      let t' := push t e in
      (write (λ st, set_trips (<[_id t' := fields t']> (trips st)) st);;;
       ret t')%io
  end.

End Models.

(* ===================================================================== *)
(** ** server.js: requests, responses, middleware *)
(* ===================================================================== *)

(** The file part of a multipart request. *)
Record file_part : Type := {
  fieldname : string;
  originalname : string;
  mimetype : string;
  size : Z                     (* bytes *)
}.

Record request : Type := Request {
  header_Authorization : option string;   (* req.header('Authorization') *)
  params_id : string;                      (* req.params.id *)
  req_body : gmap string jsval;            (* req.body, after express.json() *)
  req_part : option file_part;             (* the multipart file, if any *)
  req_user : jsval;                        (* req.user *)
  req_file : option string                 (* req.file.filename *)
}.

Definition set_req_user (req : request) (decoded : jsval) : request :=
  {| header_Authorization := header_Authorization req;
     params_id := params_id req;
     req_body := req_body req;
     req_part := req_part req;
     req_user := decoded;
     req_file := req_file req |}.

Definition set_req_body (req : request) (body : gmap string jsval) : request :=
  {| header_Authorization := header_Authorization req;
     params_id := params_id req;
     req_body := body;
     req_part := req_part req;
     req_user := req_user req;
     req_file := req_file req |}.

Definition set_req_file (req : request) (filename : string) : request :=
  {| header_Authorization := header_Authorization req;
     params_id := params_id req;
     req_body := req_body req;
     req_part := req_part req;
     req_user := req_user req;
     req_file := Some filename |}.

(** What a response carries. *)
Inductive payload : Type :=
| Msg (msg : string)                       (* res.json({ msg }) *)
| Text (text : string)                     (* res.send(text) *)
| Session (token : string) (user_id : string) (username email : string)
                                           (* { token, user: { id, username, email } } *)
| Profile (user : option (document User.t))  (* the user, password deselected *)
| Picture (profilePicture : string)        (* { profilePicture } *)
| TripJson (trip : document Trip.t)
| TripsJson (trips : list (document Trip.t))
| ErrorPage (e : error).                   (* Express's default error handler *)

Record response : Type := Response { status : Z; body : payload }.

(** A handler answers, or leaves the request with an unhandled error. *)
Definition handler : Type := request -> io response.

(** [res.status(code).json({ msg })], [res.status(code).send(text)],
    [res.json(x)] *)
Definition json_msg (code : Z) (msg : string) : io response :=
  ret (Response code (Msg msg)).
Definition send (code : Z) (text : string) : io response :=
  ret (Response code (Text text)).
Definition json (p : payload) : io response :=
  ret (Response 200 p).

(** [next(err)] with no error middleware installed: Express answers 500. *)
Definition next_err (e : error) : io response :=
  ret (Response 500 (ErrorPage e)).

Section Server.
Context `{Platform}.

(** The gatekeeper middleware.  [!token] holds for a missing header and
    for an empty one.  [next()] stands inside the [try] block, but an
    error of a later handler never reaches this [catch]: the handlers
    are [async] functions, and Express wraps each layer in its own
    [try]. *)
Definition auth (env : ambient) (next : handler) : handler :=
  λ req,
    match header_Authorization req with
    | None => json_msg 401 "No token, authorization denied"
    | Some token =>
        if bool_decide (token = "")
        then json_msg 401 "No token, authorization denied"
        else
          match jwt_verify (now env) (replace token "Bearer " "") with
          | Some decoded => next (set_req_user req decoded)
          | None => json_msg 400 "Token is not valid"
          end
    end.

(** [decoded.user.id] *)
Definition user_id (decoded : jsval) : completion jsval :=
  match get_prop decoded "user" with
  | Normal u => get_prop u "id"
  | Throw e => Throw e
  end.

(** [req.user.user.id] *)
Definition req_user_user_id (req : request) : io jsval :=
  lift (user_id (req_user req)).

(** *** File upload configuration *)

Definition fileSize : Z := 5 * 1024 * 1024.

Definition fileFilter (file : file_part) : completion bool :=
  if startsWith (mimetype file) "image/" then Normal true
  else Throw (PlainError "Only images are allowed").

(** [storage.filename] *)
Definition filename (env : ambient) (file : file_part) : string :=
  let uniqueSuffix := pretty (now env) +:+ "-" +:+ pretty (random env) in
  "avatar-" +:+ uniqueSuffix +:+ extname (originalname file).

(** [upload.single(field)]: a file part without a file name is skipped
    (no file was chosen); a file under another field name is refused,
    then the filter is asked, then the size limit applies while the file
    is received; an accepted file is described in [req.file].  The
    directory [public/uploads] the file is written to is not part of
    the modelled state: no handler reads it. *)
Definition upload_single (field : string) (env : ambient) (next : handler) : handler :=
  λ req,
    match req_part req with
    | None => next req
    | Some file =>
        if bool_decide (originalname file = "") then next req
        else if negb (bool_decide (fieldname file = field)) then next_err MulterError
        else
          match fileFilter file with
          | Throw e => next_err e
          | Normal false => next req
          | Normal true =>
              if (fileSize <? size file)%Z then next_err MulterError
              else next (set_req_file req (filename env file))
          end
    end.

(** The [catch] block shared by every protected route. *)
Definition server_error (err : error) : io response := send 500 "Server Error".

(** *** Auth routes *)

(** [bcrypt.hash(password, salt)] and [bcrypt.compare(password, hash)]
    reject unless [password] is a string. *)
Definition hash (password : jsval) (salt : string) : completion string :=
  match password with
  | JStr s => Normal (bcrypt_hash s salt)
  | _ => Throw (PlainError "Illegal arguments")
  end.

Definition compare (password : jsval) (hashed : string) : completion bool :=
  match password with
  | JStr s => Normal (bcrypt_compare s hashed)
  | _ => Throw (PlainError "Illegal arguments")
  end.

(** [{ user: { id } }] *)
Definition token_payload (user_id : string) : jsval :=
  JObj {[ "user" := JObj {[ "id" := JStr user_id ]} ]}.

(** POST /api/register.  [jwt.sign] is given an object payload and a
    valid [expiresIn], so its callback is called without an error. *)
Definition post_api_register (env : ambient) : handler :=
  λ req,
    let username := prop (req_body req) "username" in
    let email := prop (req_body req) "email" in
    let password := prop (req_body req) "password" in
    try_catch
      (user <- User_findOne email;;
       match user with
       | Some _ => json_msg 400 "User already exists"
       | None =>
           let user := new_User env username email password in
           hashed <- lift (hash password (salt env));;
           let user := set_password user hashed in
           user <- User_save_new user;;
           let token := jwt_sign (now env) (token_payload (id user)) in
           json (Session token (id user)
                         (User.username (fields user)) (User.email (fields user)))
       end)%io
      (λ err,
         if bool_decide (name err = "ValidationError")
         then json_msg 400 "Invalid Email Format"
         else send 500 "Server Error").

(** POST /api/login *)
Definition post_api_login (env : ambient) : handler :=
  λ req,
    let email := prop (req_body req) "email" in
    let password := prop (req_body req) "password" in
    try_catch
      (user <- User_findOne email;;
       match user with
       | None => json_msg 400 "Invalid Credentials"
       | Some user =>
           isMatch <- lift (compare password (User.password (fields user)));;
           if negb isMatch then json_msg 400 "Invalid Credentials"
           else
             let token := jwt_sign (now env) (token_payload (id user)) in
             json (Session token (id user)
                           (User.username (fields user)) (User.email (fields user)))
       end)%io
      server_error.

(** GET /api/auth/user *)
Definition auth_user : handler :=
  λ req,
    try_catch
      (uid <- req_user_user_id req;;
       user <- User_findById uid;;
       json (Profile user))%io
      server_error.

Definition get_api_auth_user (env : ambient) : handler :=
  auth env auth_user.

(** POST /api/user/avatar *)
Definition user_avatar : handler :=
  λ req,
    try_catch
      (match req_file req with
       | None => json_msg 400 "No file uploaded"
       | Some file =>
           uid <- req_user_user_id req;;
           user <- User_findById uid;;
           match user with
           | None => json_msg 404 "User not found"
           | Some user =>
               let user := set_profilePicture user ("/uploads/" +:+ file) in
               user <- User_save user;;
               json (Picture (User.profilePicture (fields user)))
           end
       end)%io
      server_error.

Definition post_api_user_avatar (env : ambient) : handler :=
  auth env (upload_single "avatar" env user_avatar).

(** *** Trip routes *)

(** GET /api/trips *)
Definition trips_list : handler :=
  λ req,
    try_catch
      (uid <- req_user_user_id req;;
       trips <- Trip_find_user uid;;
       json (TripsJson trips))%io
      server_error.

Definition get_api_trips (env : ambient) : handler :=
  auth env trips_list.

(** POST /api/trips *)
Definition trips_create (env : ambient) : handler :=
  λ req,
    let destination := prop (req_body req) "destination" in
    let budget := prop (req_body req) "budget" in
    let startDate := prop (req_body req) "startDate" in
    try_catch
      (uid <- req_user_user_id req;;
       let newTrip := new_Trip env destination budget startDate uid in
       trip <- Trip_save_new newTrip;;
       json (TripJson trip))%io
      server_error.

Definition post_api_trips (env : ambient) : handler :=
  auth env (trips_create env).

(** POST /api/trips/:id/expenses: the body of the [try] block.  The
    owner is read from the result of the lookup, whatever it is. *)
Definition add_expense (env : ambient) : handler :=
  λ req,
    (trip <- Trip_findById (JStr (params_id req));;
     match trip with
     | None => throw TypeError                       (* trip.user of null *)
     | Some trip =>
         uid <- req_user_user_id req;;
         if strict_neq (toString (Trip.user (fields trip))) uid
         then json_msg 401 "Not authorized"
         else
           trip <- Trip_push_save env trip (req_body req);;
           json (TripJson trip)
     end)%io.

Definition trips_id_expenses (env : ambient) : handler :=
  λ req, try_catch (add_expense env req) server_error.

Definition post_api_trips_id_expenses (env : ambient) : handler :=
  auth env (trips_id_expenses env).

(** *** The application: its routes, and the stores it can reach *)

Inductive route : Type :=
| Register | Login | AuthUser | UserAvatar | TripsList | TripsCreate | TripsAddExpense.

Definition app (r : route) (env : ambient) : handler :=
  match r with
  | Register => post_api_register env
  | Login => post_api_login env
  | AuthUser => get_api_auth_user env
  | UserAvatar => post_api_user_avatar env
  | TripsList => get_api_trips env
  | TripsCreate => post_api_trips env
  | TripsAddExpense => post_api_trips_id_expenses env
  end.

(** The stores reached from [st] by serving requests one after another. *)
Inductive reachable_from (st : db) : db -> Prop :=
| reach_here : reachable_from st st
| reach_serve (r : route) (env : ambient) (req : request)
    (st1 st2 : db) (out : completion response) :
    reachable_from st st1 ->
    app r env req st1 = (st2, out) ->
    reachable_from st st2.

Definition empty_db : db := Db ∅ ∅.
Definition reachable : db -> Prop := reachable_from empty_db.

(** *** Vocabulary of the statements *)

(** The request presents the token [t]: its [Authorization] header is
    not empty and reads [t] once ["Bearer "] is removed. *)
Definition presented (req : request) (t : string) : Prop :=
  ∃ h, header_Authorization req = Some h ∧ h ≠ "" ∧ replace h "Bearer " "" = t.

(** The request presents a token that [jwt.verify] accepts as [decoded]. *)
Definition authenticated (env : ambient) (req : request) (decoded : jsval) : Prop :=
  ∃ t, presented req t ∧ jwt_verify (now env) t = Some decoded.

(** The request is authenticated and the id in its token is [uid]. *)
Definition caller (env : ambient) (req : request) (uid : jsval) : Prop :=
  ∃ decoded, authenticated env req decoded ∧ user_id decoded = Normal uid.

(** [uid] is an id in the form the store hands out: it casts to itself. *)
Definition canonical (uid : string) : Prop :=
  castObjectId (JStr uid) = Casted uid.

(** The path parameter names the stored trip [t] under key [k]. *)
Definition resolves (req : request) (st : db) (k : ObjectId) (t : Trip.t) : Prop :=
  castObjectId (JStr (params_id req)) = Casted k ∧ trips st !! k = Some t.

(** The subdocument [e] holds what the body [obj] sent: the description
    and the amount are the casts of the body's, the category is the
    body's (Other when it has none) and is one of the enum, the date is
    the body's (the current time when it has none), and the [_id] is the
    fresh one. *)
Definition sent (env : ambient) (obj : gmap string jsval) (e : document Expense.t)
  : Prop :=
  _id e = fresh env ∧
  castString (prop obj "description") = Casted (Expense.description (fields e)) ∧
  castNumber (prop obj "amount") = Casted (Expense.amount (fields e)) ∧
  enum_category (castString (with_default (prop obj "category") (JStr "Other")))
    = Some (Expense.category (fields e)) ∧
  optional (castDate (with_default (prop obj "date") (JNum (now env))))
    = Some (Expense.date (fields e)).

(** Every stored e-mail address passed the validator of [UserSchema]. *)
Definition emails_valid (st : db) : Prop :=
  ∀ k u, users st !! k = Some u → isEmail (User.email u) = true.

(** Every trip of [st] is still stored in [st'] with the same owner. *)
Definition owners_kept (st st' : db) : Prop :=
  ∀ k t, trips st !! k = Some t →
         ∃ t', trips st' !! k = Some t' ∧ Trip.user t' = Trip.user t.

(** The ways serving one request can change the store. *)
Inductive effect (st st' : db) : Prop :=
| effect_none :
    st' = st → effect st st'
| effect_user_new (k : ObjectId) (u : User.t) :
    users st !! k = None → isEmail (User.email u) = true →
    st' = set_users (<[k := u]> (users st)) st → effect st st'
| effect_user_picture (k : ObjectId) (u : User.t) (path : string) :
    users st !! k = Some u →
    st' = set_users (<[k := fields (set_profilePicture (Doc k u) path)]> (users st)) st →
    effect st st'
| effect_trip_new (k : ObjectId) (t : Trip.t) :
    trips st !! k = None →
    st' = set_trips (<[k := t]> (trips st)) st → effect st st'
| effect_trip_push (k : ObjectId) (t : Trip.t) (e : document Expense.t) :
    trips st !! k = Some t →
    st' = set_trips (<[k := fields (push (Doc k t) e)]> (trips st)) st →
    effect st st'.

(** *** Vocabulary of the store invariants *)

(** The status codes the server uses. *)
Definition known_status (code : Z) : Prop :=
  code = 200%Z ∨ code = 400%Z ∨ code = 401%Z ∨ code = 404%Z ∨ code = 500%Z.

(** The routes registered with the [auth] middleware. *)
Definition protected (r : route) : bool :=
  match r with
  | Register | Login => false
  | _ => true
  end.

(** The routes that only read the store. *)
Definition read_only (r : route) : bool :=
  match r with
  | Login | AuthUser | TripsList => true
  | _ => false
  end.

(** What [UserSchema], [ExpenseSchema] and [TripSchema] require of a
    stored document. *)
Definition user_ok (u : User.t) : Prop :=
  User.username u ≠ "" ∧ User.email u ≠ "" ∧
  isEmail (User.email u) = true ∧ User.password u ≠ "".

Definition expense_ok (e : document Expense.t) : Prop :=
  Expense.description (fields e) ≠ "".

Definition trip_ok (t : Trip.t) : Prop :=
  Trip.destination t ≠ "" ∧ Forall expense_ok (Trip.expenses t).

Definition store_ok (st : db) : Prop :=
  (∀ k u, users st !! k = Some u → user_ok u) ∧
  (∀ k t, trips st !! k = Some t → trip_ok t).

(** No two stored users share an e-mail address. *)
Definition emails_unique (st : db) : Prop :=
  ∀ k1 k2 u1 u2,
    users st !! k1 = Some u1 → users st !! k2 = Some u2 →
    User.email u1 = User.email u2 → k1 = k2.

(** Every stored password is a value of [bcrypt.hash]. *)
Definition passwords_hashed (st : db) : Prop :=
  ∀ k u, users st !! k = Some u →
         ∃ plain salt0, User.password u = bcrypt_hash plain salt0.

(** The user is the same but for the profile picture. *)
Definition same_account (u u' : User.t) : Prop :=
  User.username u' = User.username u ∧ User.email u' = User.email u ∧
  User.password u' = User.password u ∧ User.createdAt u' = User.createdAt u.

(** The trip is the same but for expenses added at the end. *)
Definition grown (t t' : Trip.t) : Prop :=
  Trip.user t' = Trip.user t ∧ Trip.destination t' = Trip.destination t ∧
  Trip.budget t' = Trip.budget t ∧ Trip.startDate t' = Trip.startDate t ∧
  ∃ more, Trip.expenses t' = (Trip.expenses t ++ more)%list.

(** The ways serving one request can change the store, with what the
    route checked before writing. *)
Inductive change (st st' : db) : Prop :=
| change_none :
    st' = st → change st st'
| change_register (k : ObjectId) (u : User.t) (plain salt0 : string) :
    users st !! k = None →
    (∀ k' u', users st !! k' = Some u' → User.email u' ≠ User.email u) →
    user_ok u →
    User.password u = bcrypt_hash plain salt0 →
    User.profilePicture u = "" →
    st' = set_users (<[k := u]> (users st)) st → change st st'
| change_picture (k : ObjectId) (u : User.t) (path : string) :
    users st !! k = Some u →
    st' = set_users (<[k := fields (set_profilePicture (Doc k u) path)]> (users st)) st →
    change st st'
| change_trip (k : ObjectId) (t : Trip.t) :
    trips st !! k = None →
    Trip.destination t ≠ "" → Trip.expenses t = [] →
    st' = set_trips (<[k := t]> (trips st)) st → change st st'
| change_expense (k : ObjectId) (t : Trip.t) (e : document Expense.t) :
    trips st !! k = Some t →
    expense_ok e →
    st' = set_trips (<[k := fields (push (Doc k t) e)]> (trips st)) st →
    change st st'.

(** What serving a request comes to: an answer with a status the server
    uses, a store that changed only if the answer is 200, and a change
    of one of the five kinds. *)
Definition served (st : db) (res : db * completion response) : Prop :=
  ∃ r, res.2 = Normal r ∧ known_status (status r) ∧
       (status r ≠ 200%Z → res.1 = st) ∧ change st res.1.

End Server.

(* ===================================================================== *)
(** ** An instance of the packages, to run the server on examples *)
(* ===================================================================== *)

Module Reference.

Definition lower_ascii (c : ascii) : ascii :=
  let n := Ascii.nat_of_ascii c in
  if (65 <=? n)%nat && (n <=? 90)%nat then Ascii.ascii_of_nat (n + 32) else c.

Fixpoint lower (s : string) : string :=
  match s with
  | EmptyString => EmptyString
  | String c s' => String (lower_ascii c) (lower s')
  end.

(** the suffix of [s] from its last dot, or the empty string *)
Fixpoint ext (s : string) : string :=
  match s with
  | EmptyString => EmptyString
  | String c s' =>
      if occurs "." s' then ext s'
      else if bool_decide (c = "."%char) then s else EmptyString
  end.

(** A token is ["jwt."] followed by the user id; a hash is ["$2a$10$"]
    followed by the password. *)
Definition platform : Platform := {|
  jwt_verify _ token :=
    if String.prefix "jwt." token
    then Some (token_payload (string_drop 4 token)) else None;
  jwt_sign _ payload :=
    match user_id payload with
    | Normal (JStr uid) => "jwt." +:+ uid
    | _ => "jwt."
    end;
  bcrypt_hash s _ := "$2a$10$" +:+ s;
  bcrypt_compare s hashed := bool_decide (hashed = "$2a$10$" +:+ s);
  isEmail s := occurs "@" s;
  toLowerCase := lower;
  trim s := s;
  extname := ext;
  castStringOther v :=
    match v with
    | JNum n => Casted (pretty n)
    | JBool b => Casted (if b then "true" else "false")
    | _ => CastFails
    end;
  castNumberOther v :=
    match v with
    | JBool b => Casted (if b then 1 else 0)%Z
    | JStr "" => Nullish
    | _ => CastFails
    end;
  castDateOther v :=
    match v with
    | JNum n => Casted n
    | _ => CastFails
    end;
  castObjectIdOther v :=
    match v with
    | JStr s => if bool_decide (String.length s = 24%nat) then Casted s else CastFails
    | _ => CastFails
    end;
  queryStringOther v :=
    match v with
    | JArr items =>
        Some (λ s, existsb (λ i, match i with
                                 | JStr s' => bool_decide (lower s' = s)
                                 | _ => false
                                 end) items)
    | JObj props =>
        match props !! "$ne" with
        | Some (JStr s') => Some (λ s, negb (bool_decide (lower s' = s)))
        | _ => None
        end
    | _ => None
    end;
  enumAcceptsNull := true
|}.

Definition alice : ObjectId := "64b7f0a1c2d3e4f5a6b7c8d1".
Definition bob : ObjectId := "64b7f0a1c2d3e4f5a6b7c8d2".
Definition tokyo_id : ObjectId := "64b7f0a1c2d3e4f5a6b7c8e1".

Definition env0 : ambient :=
  {| now := 1700000000000; fresh := "64b7f0a1c2d3e4f5a6b7c8f1";
     salt := "$2a$10$"; random := 123456789 |}.
Definition env1 : ambient :=
  {| now := 1700000001000; fresh := "64b7f0a1c2d3e4f5a6b7c8f2";
     salt := "$2a$10$"; random := 987654321 |}.

(** A request with a JSON body and, when [token] is given, the header
    [Authorization: Bearer <token>]. *)
Definition request_of (token : option string) (path_id : string)
    (body : gmap string jsval) : request :=
  {| header_Authorization := (λ t, "Bearer " +:+ t) <$> token;
     params_id := path_id;
     req_body := body;
     req_part := None;
     req_user := JUndefined;
     req_file := None |}.

Definition upload_of (token : string) (file : file_part) : request :=
  {| header_Authorization := Some token;
     params_id := "";
     req_body := ∅;
     req_part := Some file;
     req_user := JUndefined;
     req_file := None |}.

Definition tokyo : Trip.t :=
  {| Trip.user := alice; Trip.destination := "Tokyo"; Trip.budget := 2000;
     Trip.startDate := None; Trip.expenses := [] |}.

Definition alice_user : User.t :=
  {| User.username := "alice"; User.email := "alice@example.com";
     User.password := "$2a$10$secret"; User.profilePicture := "";
     User.createdAt := 1690000000000 |}.

(** One user, Alice, who owns one trip. *)
Definition db1 : db :=
  {| users := {[ alice := alice_user ]}; trips := {[ tokyo_id := tokyo ]} |}.

Definition sushi : gmap string jsval :=
  {[ "description" := JStr "Sushi"; "amount" := JNum 40; "category" := JStr "Food" ]}.

(** the token issued to a user *)
Definition token_of (uid : ObjectId) : string := "jwt." +:+ uid.

(** POST /api/trips/<tokyo_id>/expenses with the sushi expense *)
Definition add_sushi (who : ObjectId) : request :=
  request_of (Some (token_of who)) tokyo_id sushi.

(** POST /api/trips/<unknown id>/expenses *)
Definition add_sushi_nowhere : request :=
  request_of (Some (token_of alice)) "64b7f0a1c2d3e4f5a6b7c8e9" sushi.

Definition sushi_at (env : ambient) : document Expense.t :=
  Doc (fresh env)
      {| Expense.description := "Sushi"; Expense.amount := 40;
         Expense.category := Some Expense.Food;
         Expense.date := Some (now env) |}.

(** the store after Alice added the sushi once, and twice *)
Definition db2 : db :=
  set_trips (<[tokyo_id := fields (push (Doc tokyo_id tokyo) (sushi_at env0))]>
               (trips db1)) db1.
Definition db3 : db :=
  set_trips (<[tokyo_id := fields (push (push (Doc tokyo_id tokyo) (sushi_at env0))
                                        (sushi_at env1))]>
               (trips db2)) db2.

(** POST /api/trips { destination: "Tokyo", budget: 2000 } *)
Definition create_tokyo (who : ObjectId) : request :=
  request_of (Some (token_of who)) ""
             {[ "destination" := JStr "Tokyo"; "budget" := JNum 2000 ]}.

(** GET /api/trips *)
Definition list_as (who : ObjectId) : request :=
  request_of (Some (token_of who)) "" ∅.

(** POST /api/login and POST /api/register *)
Definition login_with (email password : string) : request :=
  request_of None "" {[ "email" := JStr email; "password" := JStr password ]}.

Definition register_with (username email password : string) : request :=
  request_of None ""
             {[ "username" := JStr username; "email" := JStr email;
                "password" := JStr password ]}.


(** POST /api/register { username: "bob", email: { a: 1 }, password: "pw" } *)
Definition register_object_email : request :=
  request_of None ""
             {[ "username" := JStr "bob"; "email" := JObj {[ "a" := JNum 1 ]};
                "password" := JStr "pw" ]}.

(** A multipart request whose avatar part has no file name. *)
Definition nameless : file_part :=
  {| fieldname := "avatar"; originalname := "";
     mimetype := "application/octet-stream"; size := 0 |}.

(** POST /api/register { username: "bob", email: "not-an-email" } *)
Definition register_without_password : request :=
  request_of None "" {[ "username" := JStr "bob"; "email" := JStr "not-an-email" ]}.

Definition photo : file_part :=
  {| fieldname := "avatar"; originalname := "me.jpeg";
     mimetype := "image/jpeg"; size := 1 * 1024 * 1024 |}.
Definition notes : file_part :=
  {| fieldname := "avatar"; originalname := "notes.txt";
     mimetype := "text/plain"; size := 120 |}.

End Reference.

(* ===================================================================== *)
(** ** Properties *)
(* ===================================================================== *)

(** *** Strings *)

Lemma prefix_append (p t : string) : String.prefix p (p +:+ t) = true.
Proof.
  induction p as [|c p IH]; simpl.
  - by destruct t.
  - destruct (Ascii.ascii_dec c c); [exact IH | congruence].
Qed.

Lemma string_drop_append (p t : string) :
  string_drop (String.length p) (p +:+ t) = t.
Proof. induction p as [|c p IH]; simpl; [by destruct t | exact IH]. Qed.

Lemma replace_unfold (s pat rep : string) :
  replace s pat rep =
  if String.prefix pat s then rep +:+ string_drop (String.length pat) s
  else match s with
       | EmptyString => EmptyString
       | String c s' => String c (replace s' pat rep)
       end.
Proof. by destruct s. Qed.

Lemma replace_prefixed (p rep t : string) : replace (p +:+ t) p rep = rep +:+ t.
Proof. by rewrite replace_unfold, prefix_append, string_drop_append. Qed.

Lemma replace_absent (pat rep s : string) :
  occurs pat s = false → replace s pat rep = s.
Proof.
  induction s as [|c s IH]; intros Hocc; rewrite replace_unfold;
    cbn [occurs] in Hocc; apply orb_false_iff in Hocc as [-> Hocc]; [done |].
  by rewrite IH.
Qed.

(** *** Collections *)

Section CollectionFacts.
Context {A : Type}.
Implicit Types (c : gmap ObjectId A) (p : A -> bool) (d : document A).

Lemma elem_of_find p c d :
  d ∈ find p c ↔ c !! _id d = Some (fields d) ∧ p (fields d) = true.
Proof.
  unfold find. rewrite list_elem_of_fmap. split.
  - intros [[k a] [-> Hin]]. apply list_elem_of_filter in Hin as [Hp Hin].
    apply elem_of_map_to_list in Hin. done.
  - intros [Hl Hp]. exists (_id d, fields d). split; [by destruct d |].
    apply list_elem_of_filter. split; [done | by apply elem_of_map_to_list].
Qed.

Lemma NoDup_find p c : NoDup (find p c).
Proof.
  unfold find. apply NoDup_fmap_2_strong.
  - intros [k a] [k' a'] _ _ [=]. by simplify_eq/=.
  - apply NoDup_filter, NoDup_map_to_list.
Qed.

Lemma findOne_Some p c d :
  findOne p c = Some d → c !! _id d = Some (fields d) ∧ p (fields d) = true.
Proof.
  unfold findOne. intros Hd. apply elem_of_find.
  destruct (find p c) as [|d' l]; simplify_eq/=. left.
Qed.

Lemma findOne_None p c :
  findOne p c = None ↔ ∀ k a, c !! k = Some a → p a = false.
Proof.
  unfold findOne. split.
  - intros Hnone k a Hk. destruct (p a) eqn:Hp; [| done].
    assert (Doc k a ∈ find p c) as Hin by by apply elem_of_find.
    destruct (find p c); [by apply elem_of_nil in Hin | done].
  - intros Hall. destruct (find p c) as [|d l] eqn:E; [done |].
    assert (d ∈ find p c) as Hin by (rewrite E; left).
    apply elem_of_find in Hin as [Hl Hp]. apply Hall in Hl. congruence.
Qed.

End CollectionFacts.

(** *** The gatekeeper *)

Section Properties.
Context `{Platform}.

Ltac run :=
  cbv [bind ret throw lift read write try_catch json_msg send json next_err
       server_error req_user_user_id].

Lemma auth_pass (env : ambient) (next : handler) (req : request) (st : db)
    (decoded : jsval) :
  authenticated env req decoded →
  auth env next req st = next (set_req_user req decoded) st.
Proof.
  intros (t & (h & Hh & Hne & Ht) & Hv). unfold auth. rewrite Hh.
  rewrite bool_decide_eq_false_2 by done. by rewrite Ht, Hv.
Qed.

(** C3. On a protected route: without an [Authorization] header (or with
    an empty one) the answer is 401 "No token, authorization denied",
    whatever the handler behind the gate is; with a token that
    [jwt.verify] rejects the answer is 400 "Token is not valid",
    whatever the handler is; with a token that it accepts, the handler
    runs on the request it was sent, with the decoded payload as its
    [req.user] and everything else as it came.  A token is presented
    equally by the bare header and by the header with the prefix
    ["Bearer "]. *)
Theorem auth_gate (env : ambient) (next : handler) (req : request) (st : db) :
  (header_Authorization req = None ∨ header_Authorization req = Some "" →
     auth env next req st =
       (st, Normal (Response 401 (Msg "No token, authorization denied"))))
  ∧ (∀ t, presented req t → jwt_verify (now env) t = None →
       auth env next req st = (st, Normal (Response 400 (Msg "Token is not valid"))))
  ∧ (∀ t decoded, presented req t → jwt_verify (now env) t = Some decoded →
       ∃ req',
         auth env next req st = next req' st ∧
         req' = set_req_user req decoded ∧
         req_user req' = decoded ∧
         header_Authorization req' = header_Authorization req ∧
         params_id req' = params_id req ∧
         req_body req' = req_body req ∧
         req_part req' = req_part req ∧
         req_file req' = req_file req)
  ∧ (∀ t, t ≠ "" → occurs "Bearer " t = false →
       header_Authorization req = Some t ∨
       header_Authorization req = Some ("Bearer " +:+ t) →
       presented req t).
Proof.
  split; [| split; [| split]].
  - intros [Hh | Hh]; unfold auth; by rewrite Hh.
  - intros t (h & Hh & Hne & Ht) Hv. unfold auth. rewrite Hh.
    rewrite bool_decide_eq_false_2 by done. by rewrite Ht, Hv.
  - intros t decoded Ht Hv. exists (set_req_user req decoded).
    split; [| done]. apply auth_pass. by exists t.
  - intros t Hne Hocc [Hh | Hh].
    + exists t. by rewrite replace_absent.
    + exists ("Bearer " +:+ t). split; [done |]. split; [done |].
      apply (replace_prefixed "Bearer " "" t).
Qed.

(** *** Adding an expense *)

Lemma strict_neq_true (s : string) (v : jsval) :
  JStr s ≠ v → strict_neq s v = true.
Proof.
  destruct v; try done. intros Hne. simpl.
  rewrite bool_decide_eq_false_2; [done | congruence].
Qed.

(** C1. An authenticated add-expense request on an existing trip whose
    stored owner differs from the id in the caller's token is answered
    401 "Not authorized", and the store (the trip and its expenses
    included) is left as it was. *)
Theorem add_expense_not_owner (env : ambient) (req : request) (st : db)
    (k : ObjectId) (t : Trip.t) (uid : jsval) :
  caller env req uid →
  resolves req st k t →
  JStr (toString (Trip.user t)) ≠ uid →
  post_api_trips_id_expenses env req st =
    (st, Normal (Response 401 (Msg "Not authorized"))).
Proof.
  intros (decoded & Hauth & Hid) [Hcast Hk] Hne.
  unfold post_api_trips_id_expenses. rewrite (auth_pass _ _ _ _ _ Hauth).
  unfold trips_id_expenses, add_expense, Trip_findById. simpl params_id.
  rewrite Hcast. run. unfold findById. rewrite Hk. simpl.
  rewrite Hid. by rewrite strict_neq_true.
Qed.

(** C8. An authenticated add-expense request whose trip id names no
    stored trip is not answered 404: the lookup yields [null], reading
    its owner throws a [TypeError] before any ownership check, and the
    route's [catch] answers 500 "Server Error"; the store is unchanged. *)
Theorem add_expense_missing_trip (env : ambient) (req : request) (st : db)
    (decoded : jsval) :
  authenticated env req decoded →
  (∀ k, castObjectId (JStr (params_id req)) = Casted k → trips st !! k = None) →
  (∃ e, add_expense env (set_req_user req decoded) st = (st, Throw e) ∧
        (castObjectId (JStr (params_id req)) ≠ CastFails → e = TypeError))
  ∧ post_api_trips_id_expenses env req st =
      (st, Normal (Response 500 (Text "Server Error")))
  ∧ (∀ st' r, post_api_trips_id_expenses env req st = (st', Normal r) →
              status r ≠ 404%Z).
Proof.
  intros Hauth Hnone.
  assert (∃ e, add_expense env (set_req_user req decoded) st = (st, Throw e) ∧
               (castObjectId (JStr (params_id req)) ≠ CastFails → e = TypeError))
    as (e & Hthrow & He).
  { unfold add_expense, Trip_findById. simpl params_id.
    destruct (castObjectId (JStr (params_id req))) as [| |k] eqn:Hcast; run.
    - by exists CastError.
    - by exists TypeError.
    - unfold findById. rewrite (Hnone k eq_refl). simpl. by exists TypeError. }
  assert (post_api_trips_id_expenses env req st =
            (st, Normal (Response 500 (Text "Server Error")))) as Hres.
  { unfold post_api_trips_id_expenses. rewrite (auth_pass _ _ _ _ _ Hauth).
    unfold trips_id_expenses, try_catch. by rewrite Hthrow. }
  split; [by exists e |]. split; [done |].
  intros st' r. rewrite Hres. by intros [= _ <-].
Qed.

(** What the route does once the caller is known to own the trip. *)
Lemma add_expense_owner (env : ambient) (req : request) (st : db)
    (k : ObjectId) (t : Trip.t) :
  caller env req (JStr (toString (Trip.user t))) →
  resolves req st k t →
  post_api_trips_id_expenses env req st =
    match pushed env (req_body req) with
    | Some e =>
        let t' := push (Doc k t) e in
        (set_trips (<[k := fields t']> (trips st)) st,
         Normal (Response 200 (TripJson t')))
    | None => (st, Normal (Response 500 (Text "Server Error")))
    end.
Proof.
  intros (decoded & Hauth & Hid) [Hcast Hk].
  unfold post_api_trips_id_expenses. rewrite (auth_pass _ _ _ _ _ Hauth).
  unfold trips_id_expenses, add_expense, Trip_findById. simpl params_id.
  rewrite Hcast. run. unfold findById. rewrite Hk. simpl.
  rewrite Hid. simpl. rewrite bool_decide_eq_true_2 by done. simpl.
  unfold Trip_push_save. by destruct (pushed env (req_body req)).
Qed.

Lemma resolves_push (req : request) (st : db) (k : ObjectId) (t : Trip.t)
    (e : document Expense.t) :
  resolves req st k t →
  let t' := push (Doc k t) e in
  resolves req (set_trips (<[k := fields t']> (trips st)) st) k (fields t').
Proof. intros [Hcast _]. split; [done |]. simpl. by rewrite lookup_insert_eq. Qed.

Lemma pushed_sent (env : ambient) (obj : gmap string jsval) (e : document Expense.t) :
  pushed env obj = Some e → sent env obj e.
Proof.
  unfold pushed, ExpenseSchema_validate, sent. simpl.
  destruct (castString (prop obj "description")) as [| |ds]; try done. simpl.
  case_bool_decide; [done |]. simpl.
  destruct (castNumber _) as [| |a]; try done. simpl.
  destruct (enum_category _) as [c|]; [| done]. simpl.
  destruct (optional _) as [dt|]; [| done]. simpl. by intros [= <-].
Qed.

(** C6. A successful add-expense on an existing trip owned by the caller
    leaves the trip with its previous expenses, in their order, followed
    by the new one, which holds what the request body sent; replaying
    the same request successfully appends a second such entry after the
    first. *)
Theorem add_expense_appends (env : ambient) (req : request) (st st' : db)
    (k : ObjectId) (t : Trip.t) (r : response) :
  caller env req (JStr (toString (Trip.user t))) →
  resolves req st k t →
  post_api_trips_id_expenses env req st = (st', Normal r) →
  status r = 200%Z →
  ∃ e t',
    pushed env (req_body req) = Some e ∧
    sent env (req_body req) e ∧
    r = Response 200 (TripJson (Doc k t')) ∧
    trips st' !! k = Some t' ∧
    Trip.expenses t' = (Trip.expenses t ++ [e])%list ∧
    (∀ k', k' ≠ k → trips st' !! k' = trips st !! k') ∧
    users st' = users st ∧
    ∀ env' st'' r',
      caller env' req (JStr (toString (Trip.user t))) →
      post_api_trips_id_expenses env' req st' = (st'', Normal r') →
      status r' = 200%Z →
      ∃ e' t'',
        pushed env' (req_body req) = Some e' ∧
        sent env' (req_body req) e' ∧
        trips st'' !! k = Some t'' ∧
        Trip.expenses t'' = (Trip.expenses t ++ [e; e'])%list ∧
        length (Trip.expenses t'') = S (S (length (Trip.expenses t))).
Proof.
  intros Hcaller Hres Hrun Hok.
  rewrite (add_expense_owner _ _ _ _ _ Hcaller Hres) in Hrun.
  destruct (pushed env (req_body req)) as [e|] eqn:He; simplify_eq/=.
  exists e, (fields (push (Doc k t) e)). simpl.
  split; [done |]. split; [by apply pushed_sent |].
  split; [done |]. split; [by rewrite lookup_insert_eq |].
  split; [done |]. split; [by intros k' Hne; rewrite lookup_insert_ne |].
  split; [done |].
  intros env' st'' r' Hcaller' Hrun' Hok'.
  pose proof (resolves_push _ _ _ _ e Hres) as Hres'. simpl in Hres'.
  rewrite (add_expense_owner env' req _ k (fields (push (Doc k t) e)) Hcaller' Hres') in Hrun'.
  destruct (pushed env' (req_body req)) as [e'|] eqn:He'; simplify_eq/=.
  eexists e', _. split; [done |]. split; [by apply pushed_sent |].
  split; [by rewrite lookup_insert_eq |].
  simpl. rewrite <- app_assoc. split; [done |].
  rewrite !length_app. simpl. lia.
Qed.

(** *** Creating a trip *)

(** What the route does for an authenticated request. *)
Lemma create_trip_run (env : ambient) (req : request) (st : db) (decoded : jsval) :
  authenticated env req decoded →
  post_api_trips env req st =
    match user_id decoded with
    | Throw _ => (st, Normal (Response 500 (Text "Server Error")))
    | Normal uid =>
        match TripSchema_validate
                (fields (new_Trip env (prop (req_body req) "destination")
                                  (prop (req_body req) "budget")
                                  (prop (req_body req) "startDate") uid)) with
        | None => (st, Normal (Response 500 (Text "Server Error")))
        | Some t =>
            if bool_decide (is_Some (trips st !! fresh env))
            then (st, Normal (Response 500 (Text "Server Error")))
            else (set_trips (<[fresh env := t]> (trips st)) st,
                  Normal (Response 200 (TripJson (Doc (fresh env) t))))
        end
    end.
Proof.
  intros Hauth. unfold post_api_trips. rewrite (auth_pass _ _ _ _ _ Hauth).
  unfold trips_create. run. simpl req_user. simpl req_body.
  destruct (user_id decoded) as [uid|]; [| done].
  unfold Trip_save_new. simpl fields. simpl _id.
  destruct (TripSchema_validate _) as [t|]; [| done].
  run. simpl. by destruct (bool_decide (is_Some (trips st !! fresh env))).
Qed.

Lemma TripSchema_validate_Some (d : Trip_draft) (t : Trip.t) :
  TripSchema_validate d = Some t →
  d_user d = Casted (Trip.user t) ∧
  d_destination d = Casted (Trip.destination t) ∧ Trip.destination t ≠ "" ∧
  d_budget d = Casted (Trip.budget t) ∧
  optional (d_startDate d) = Some (Trip.startDate t) ∧
  Trip.expenses t = [].
Proof.
  unfold TripSchema_validate. destruct d as [u ds b sd]; simpl.
  destruct u as [| |u]; try done. destruct ds as [| |ds]; try done. simpl.
  case_bool_decide; [done |]. destruct b as [| |b]; try done. simpl.
  destruct (optional sd) as [o|]; [| done]. simpl. by intros [= <-].
Qed.

(** C7. For an authenticated create-trip request that gives a
    destination and a budget, the trip object returned has that
    destination and budget, no expenses, and the caller's id as its
    user; and a trip object is returned whenever the destination is not
    empty, the start date (if any) casts and the new id is free. *)
Theorem create_trip_returns (env : ambient) (req : request) (st : db)
    (uid d : string) (b : Z) :
  caller env req (JStr uid) →
  canonical uid →
  prop (req_body req) "destination" = JStr d →
  prop (req_body req) "budget" = JNum b →
  (∀ st' r, post_api_trips env req st = (st', Normal r) → status r = 200%Z →
     ∃ trip, r = Response 200 (TripJson trip) ∧
             Trip.destination (fields trip) = d ∧
             Trip.budget (fields trip) = b ∧
             Trip.expenses (fields trip) = [] ∧
             Trip.user (fields trip) = uid ∧
             trips st' !! _id trip = Some (fields trip))
  ∧ (d ≠ "" →
     castDate (prop (req_body req) "startDate") ≠ CastFails →
     trips st !! fresh env = None →
     ∃ st' trip, post_api_trips env req st =
                   (st', Normal (Response 200 (TripJson trip)))).
Proof.
  intros (decoded & Hauth & Hid) Hcan Hd Hb.
  rewrite (create_trip_run _ _ _ _ Hauth), Hid, Hd, Hb. split.
  - intros st' r Hrun Hok.
    destruct (TripSchema_validate _) as [t|] eqn:Hval; [| by simplify_eq/=].
    case_bool_decide; simplify_eq/=.
    apply TripSchema_validate_Some in Hval
      as (Hu & Hds & _ & Hbu & _ & Hex). simpl in *.
    exists (Doc (fresh env) t). simpl. rewrite lookup_insert_eq.
    unfold canonical in Hcan. simpl in Hcan. rewrite Hcan in Hu. by simplify_eq.
  - intros Hne Hsd Hfree. unfold TripSchema_validate. cbn [fields new_Trip d_user].
    unfold canonical in Hcan. rewrite Hcan. simpl.
    rewrite bool_decide_eq_false_2 by done. simpl.
    destruct (castDate _) as [| |sd]; [done | |]; simpl;
      rewrite bool_decide_eq_false_2 by (rewrite Hfree; by intros [? ?]);
      eauto.
Qed.

Lemma prop_insert_ne (o : gmap string jsval) (k k' : string) (v : jsval) :
  k ≠ k' → prop (<[k := v]> o) k' = prop o k'.
Proof. intros Hne. unfold prop. by rewrite lookup_insert_ne. Qed.

(** The route reads three properties of the body and nothing else. *)
Lemma create_trip_reads (env : ambient) (req : request) (st : db)
    (body' : gmap string jsval) :
  prop body' "destination" = prop (req_body req) "destination" →
  prop body' "budget" = prop (req_body req) "budget" →
  prop body' "startDate" = prop (req_body req) "startDate" →
  post_api_trips env (set_req_body req body') st = post_api_trips env req st.
Proof.
  intros Hd Hb Hs. unfold post_api_trips, auth.
  change (header_Authorization (set_req_body req body'))
    with (header_Authorization req).
  destruct (header_Authorization req) as [token|]; [| done].
  case_bool_decide; [done |].
  destruct (jwt_verify _ _) as [decoded|]; [| done].
  unfold trips_create. simpl req_body. by rewrite Hd, Hb, Hs.
Qed.

(** A trip object is returned only when a trip was stored, and then its
    user is the cast of the token's id. *)
Lemma create_trip_stored (env : ambient) (req : request) (st st' : db)
    (decoded : jsval) (r : response) :
  authenticated env req decoded →
  post_api_trips env req st = (st', Normal r) → status r = 200%Z →
  ∃ uid t,
    user_id decoded = Normal uid ∧
    castObjectId uid = Casted (Trip.user t) ∧
    Trip.expenses t = [] ∧
    r = Response 200 (TripJson (Doc (fresh env) t)) ∧
    st' = set_trips (<[fresh env := t]> (trips st)) st.
Proof.
  intros Hauth Hrun Hok.
  rewrite (create_trip_run _ _ _ _ Hauth) in Hrun.
  destruct (user_id decoded) as [uid|]; [| by simplify_eq/=].
  destruct (TripSchema_validate _) as [t|] eqn:Hval; [| by simplify_eq/=].
  case_bool_decide; simplify_eq/=.
  apply TripSchema_validate_Some in Hval as (Hu & _ & _ & _ & _ & Hex).
  by exists uid, t.
Qed.

(** C10. The owner of a created trip comes from the verified token and
    from nowhere else: a [user] or an [expenses] property in the request
    body changes neither the store nor the response, and the trip that
    is stored has the token's id as its user and no expenses. *)
Theorem create_trip_owner_from_token (env : ambient) (req : request) (st : db)
    (u e : jsval) :
  post_api_trips env
      (set_req_body req (<["user" := u]> (<["expenses" := e]> (req_body req)))) st
    = post_api_trips env req st
  ∧ ∀ decoded st' r,
      authenticated env req decoded →
      post_api_trips env req st = (st', Normal r) → status r = 200%Z →
      ∃ uid t,
        user_id decoded = Normal uid ∧
        castObjectId uid = Casted (Trip.user t) ∧
        Trip.expenses t = [] ∧
        r = Response 200 (TripJson (Doc (fresh env) t)) ∧
        st' = set_trips (<[fresh env := t]> (trips st)) st.
Proof.
  split.
  - apply create_trip_reads; by rewrite !prop_insert_ne.
  - intros decoded st' r. apply create_trip_stored.
Qed.

(** *** How a request changes the store *)

Lemma UserSchema_validate_Some (d : User.draft) (u : User.t) :
  UserSchema_validate d = Some u →
  User.d_email d = Casted (User.email u) ∧ isEmail (User.email u) = true.
Proof.
  unfold UserSchema_validate. destruct d as [un em pw ca]; simpl.
  destruct un as [| |un]; try done. simpl. case_bool_decide; [done |].
  destruct em as [| |em]; try done. simpl. case_bool_decide; [done |].
  destruct pw as [| |pw]; try done. simpl. case_bool_decide; [done |].
  simpl. destruct (isEmail em) eqn:Hem; [| done]. by intros [= <-].
Qed.

Lemma auth_effect (env : ambient) (next : handler) :
  (∀ req st st' out, next req st = (st', out) → effect st st') →
  ∀ req st st' out, auth env next req st = (st', out) → effect st st'.
Proof.
  intros Hnext req st st' out. unfold auth. run.
  repeat case_match; try (intros [= <- _]; by constructor). apply Hnext.
Qed.

Lemma upload_effect (field : string) (env : ambient) (next : handler) :
  (∀ req st st' out, next req st = (st', out) → effect st st') →
  ∀ req st st' out, upload_single field env next req st = (st', out) → effect st st'.
Proof.
  intros Hnext req st st' out. unfold upload_single. run.
  repeat case_match; try (intros [= <- _]; by constructor); apply Hnext.
Qed.

Lemma register_effect (env : ambient) (req : request) (st st' : db)
    (out : completion response) :
  post_api_register env req st = (st', out) → effect st st'.
Proof.
  unfold post_api_register, User_findOne, User_save_new. run.
  repeat (case_match; simpl in *; simplify_eq);
    intros [= <- _]; try by constructor.
  all: match goal with Hval : UserSchema_validate _ = Some ?u |- _ =>
         apply UserSchema_validate_Some in Hval as [_ Hem];
         apply (effect_user_new _ _ (fresh env) u); [| done..]
       end.
  all: match goal with Hor : _ || _ = false |- _ =>
         apply orb_false_iff in Hor as [Hk%bool_decide_eq_false _]
       end.
  all: by apply eq_None_not_Some.
Qed.

Lemma login_effect (env : ambient) (req : request) (st st' : db)
    (out : completion response) :
  post_api_login env req st = (st', out) → effect st st'.
Proof.
  unfold post_api_login, User_findOne. run.
  repeat case_match; simplify_eq/=; intros [= <- _]; by constructor.
Qed.

Lemma auth_user_effect (req : request) (st st' : db) (out : completion response) :
  auth_user req st = (st', out) → effect st st'.
Proof.
  unfold auth_user, User_findById. run.
  repeat case_match; simplify_eq/=; intros [= <- _]; by constructor.
Qed.

Lemma user_avatar_effect (req : request) (st st' : db) (out : completion response) :
  user_avatar req st = (st', out) → effect st st'.
Proof.
  unfold user_avatar, User_findById, User_save. run.
  destruct (req_file req) as [file|]; [| intros [= <- _]; by constructor].
  destruct (user_id _); simpl; [| intros [= <- _]; by constructor].
  destruct (castObjectId _) as [| |k]; simpl;
    try (intros [= <- _]; by constructor).
  unfold findById.
  destruct (users st !! k) as [u|] eqn:Hk; simpl;
    intros [= <- _]; [| by constructor].
  by apply (effect_user_picture _ _ k u ("/uploads/" +:+ file)).
Qed.

Lemma trips_list_effect (req : request) (st st' : db) (out : completion response) :
  trips_list req st = (st', out) → effect st st'.
Proof.
  unfold trips_list, Trip_find_user. run.
  repeat case_match; simplify_eq/=; intros [= <- _]; by constructor.
Qed.

Lemma trips_create_effect (env : ambient) (req : request) (st st' : db)
    (out : completion response) :
  trips_create env req st = (st', out) → effect st st'.
Proof.
  unfold trips_create, Trip_save_new. run.
  destruct (user_id _); simpl; [| intros [= <- _]; by constructor].
  destruct (TripSchema_validate _) as [t|]; simpl;
    [| intros [= <- _]; by constructor].
  destruct (bool_decide (is_Some (trips st !! fresh env))) eqn:Hk; simpl;
    intros [= <- _]; [by constructor |].
  apply (effect_trip_new _ _ (fresh env) t); [| done].
  apply bool_decide_eq_false in Hk. by apply eq_None_not_Some.
Qed.

Lemma trips_id_expenses_effect (env : ambient) (req : request) (st st' : db)
    (out : completion response) :
  trips_id_expenses env req st = (st', out) → effect st st'.
Proof.
  unfold trips_id_expenses, add_expense, Trip_findById, Trip_push_save. run.
  destruct (castObjectId _) as [| |k]; simpl;
    try (intros [= <- _]; by constructor).
  unfold findById.
  destruct (trips st !! k) as [t|] eqn:Hk; simpl;
    [| intros [= <- _]; by constructor].
  destruct (user_id _); simpl; [| intros [= <- _]; by constructor].
  destruct (strict_neq _ _); [intros [= <- _]; by constructor |].
  destruct (pushed _ _) as [e|]; simpl; intros [= <- _]; [| by constructor].
  by apply (effect_trip_push _ _ k t e).
Qed.

Lemma serve_effect (r : route) (env : ambient) (req : request) (st st' : db)
    (out : completion response) :
  app r env req st = (st', out) → effect st st'.
Proof.
  destruct r; simpl.
  - apply register_effect.
  - apply login_effect.
  - apply auth_effect, auth_user_effect.
  - apply auth_effect, upload_effect, user_avatar_effect.
  - apply auth_effect, trips_list_effect.
  - apply auth_effect, trips_create_effect.
  - apply auth_effect, trips_id_expenses_effect.
Qed.

Lemma effect_owners_kept (st st' : db) : effect st st' → owners_kept st st'.
Proof.
  intros [-> | k u Hk _ -> | k u path Hk -> | k t Hk -> | k t e Hk ->] k' t' Hk';
    simpl; try by exists t'.
  - exists t'. rewrite lookup_insert_ne; [done | congruence].
  - destruct (decide (k = k')) as [<- | Hne].
    + rewrite lookup_insert_eq. eexists. split; [done |]. by simplify_eq/=.
    + exists t'. by rewrite lookup_insert_ne.
Qed.

Lemma effect_emails_valid (st st' : db) :
  effect st st' → emails_valid st → emails_valid st'.
Proof.
  intros [-> | k u Hk Hem -> | k u path Hk -> | k t Hk -> | k t e Hk ->] Hval k' u';
    simpl; try apply Hval.
  - destruct (decide (k = k')) as [<- | Hne].
    + rewrite lookup_insert_eq. by intros [= <-].
    + rewrite lookup_insert_ne by done. apply Hval.
  - destruct (decide (k = k')) as [<- | Hne].
    + rewrite lookup_insert_eq. intros [= <-]. simpl. by apply (Hval k).
    + rewrite lookup_insert_ne by done. apply Hval.
Qed.

Lemma reachable_from_owners_kept (st st' : db) :
  reachable_from st st' → owners_kept st st'.
Proof.
  induction 1 as [| r env req st1 st2 out _ IH Hrun].
  - intros k t Hk. by exists t.
  - intros k t Hk. destruct (IH k t Hk) as (t1 & Hk1 & Hu1).
    apply serve_effect, effect_owners_kept in Hrun.
    destruct (Hrun k t1 Hk1) as (t2 & Hk2 & Hu2).
    exists t2. split; [done | congruence].
Qed.

Lemma reachable_emails_valid (st : db) : reachable st → emails_valid st.
Proof.
  induction 1 as [| r env req st1 st2 out _ IH Hrun].
  - intros k u Hk. simpl in Hk. by rewrite lookup_empty in Hk.
  - by apply serve_effect, effect_emails_valid in Hrun.
Qed.

(** *** Listing trips *)

(** C5. An authenticated list-trips request is answered with exactly the
    stored trips whose user is the caller's id, each once; and a trip
    that another user created is in none of the caller's later lists,
    whatever requests were served in between. *)
Theorem list_trips_own (env : ambient) (req : request) (st : db) (uid : string) :
  caller env req (JStr uid) →
  canonical uid →
  ∃ l,
    get_api_trips env req st = (st, Normal (Response 200 (TripsJson l))) ∧
    NoDup l ∧
    (∀ d, d ∈ l ↔ trips st !! _id d = Some (fields d) ∧ Trip.user (fields d) = uid) ∧
    (∀ envA reqA uidA st0 st1 trip,
       uidA ≠ uid →
       caller envA reqA (JStr uidA) → canonical uidA →
       post_api_trips envA reqA st0 = (st1, Normal (Response 200 (TripJson trip))) →
       reachable_from st1 st →
       ∀ d, d ∈ l → _id d ≠ _id trip).
Proof.
  intros (decoded & Hauth & Hid) Hcan.
  exists (find (λ t, bool_decide (Trip.user t = uid)) (trips st)).
  assert (∀ d, d ∈ find (λ t, bool_decide (Trip.user t = uid)) (trips st) ↔
               trips st !! _id d = Some (fields d) ∧ Trip.user (fields d) = uid)
    as Hmem.
  { intros d. rewrite elem_of_find. by rewrite bool_decide_eq_true. }
  split; [| split; [apply NoDup_find | split; [exact Hmem |]]].
  - unfold get_api_trips. rewrite (auth_pass _ _ _ _ _ Hauth).
    unfold trips_list, Trip_find_user. run. simpl req_user. rewrite Hid.
    unfold canonical in Hcan. by rewrite Hcan.
  - intros envA reqA uidA st0 st1 trip Hne HcallerA HcanA Hcreate Hreach d Hd Heq.
    apply Hmem in Hd as [Hd Hud].
    destruct HcallerA as (decA & HauthA & HidA).
    destruct (create_trip_stored _ _ _ _ _ _ HauthA Hcreate eq_refl)
      as (v & t & Hv & Hcast & _ & [= ->] & ->).
    rewrite HidA in Hv. injection Hv as <-.
    unfold canonical in HcanA. rewrite HcanA in Hcast. injection Hcast as Hu.
    apply reachable_from_owners_kept in Hreach.
    destruct (Hreach (fresh envA) t) as (t' & Ht' & Hu').
    { simpl. by rewrite lookup_insert_eq. }
    simpl in Heq. rewrite Heq in Hd. congruence.
Qed.

(** *** Logging in and registering *)

Lemma email_filter_cast (v : jsval) (e : string) :
  castString v = Casted e →
  email_filter v = Normal (λ u, bool_decide (User.email u = toLowerCase e)).
Proof.
  destruct v; simpl; try done; intros Hc; try (by rewrite Hc).
  by injection Hc as ->.
Qed.

Lemma findOne_is_Some {A : Type} (p : A -> bool) (c : gmap ObjectId A) (k : ObjectId) (a : A) :
  c !! k = Some a → p a = true → is_Some (findOne p c).
Proof.
  intros Hk Hp. destruct (findOne p c) as [d|] eqn:Hfind; [done |].
  eapply findOne_None in Hfind; [| exact Hk]. congruence.
Qed.


Lemma UserSchema_validate_bad_email (d : User.draft) (e : string) :
  User.d_email d = Casted e → isEmail e = false → UserSchema_validate d = None.
Proof.
  intros Hd Hbad. destruct (UserSchema_validate d) as [u|] eqn:Hval; [| done].
  apply UserSchema_validate_Some in Hval as [Hem Hok]. congruence.
Qed.

(** C4 (amended). A register request whose e-mail address some stored
    user already has is answered 400 "User already exists"; one whose
    e-mail address is a string that fails the format validator, and
    whose password is a string, is answered 400 "Invalid Email Format"
    (on every store the server can reach); in both cases no user is
    stored. *)
Theorem register_rejects (env : ambient) (req : request) (st : db) :
  (∀ matches,
     email_filter (prop (req_body req) "email") = Normal matches →
     (∃ k u, users st !! k = Some u ∧ matches u = true) →
     post_api_register env req st =
       (st, Normal (Response 400 (Msg "User already exists"))))
  ∧ (∀ e p,
       prop (req_body req) "email" = JStr e →
       prop (req_body req) "password" = JStr p →
       reachable st →
       isEmail (toLowerCase e) = false →
       post_api_register env req st =
         (st, Normal (Response 400 (Msg "Invalid Email Format")))).
Proof.
  unfold post_api_register, User_findOne. split.
  - intros matches Hf (k & u & Hk & Hu). rewrite Hf. run.
    destruct (findOne_is_Some matches _ _ _ Hk Hu) as [d ->]. done.
  - intros e p He Hp Hvalid%reachable_emails_valid Hbad. rewrite He, Hp.
    cbn [email_filter castString]. run.
    destruct (findOne _ (users st)) as [d|] eqn:Hfind.
    { apply findOne_Some in Hfind as [Hd Hem%bool_decide_eq_true].
      apply Hvalid in Hd. congruence. }
    simpl. unfold User_save_new. cbn [fields new_User set_password User.d_email].
    rewrite (UserSchema_validate_bad_email _ (toLowerCase e)) by done.
    by run.
Qed.

(** *** Uploading an avatar *)

Lemma user_avatar_no_file (req : request) (st : db) :
  req_file req = None →
  user_avatar req st = (st, Normal (Response 400 (Msg "No file uploaded"))).
Proof. intros Hfile. unfold user_avatar. run. by rewrite Hfile. Qed.

(** C9. On an authenticated avatar upload the file reaches the handler
    (as [req.file]) when its MIME type starts with "image/" and its size
    is at most 5 MiB, and only then: a file that breaks either rule is
    refused by the upload middleware and the handler does not run, or,
    when the part has no file name, skipped, and the handler answers
    400 "No file uploaded"; either way the store (so every user's
    profilePicture) is as it was. *)
Theorem avatar_upload_constraints (env : ambient) (req : request) (st : db)
    (decoded : jsval) (file : file_part) :
  authenticated env req decoded →
  req_part req = Some file →
  req_file req = None →
  (originalname file ≠ "" →
   fieldname file = "avatar" →
   startsWith (mimetype file) "image/" = true →
   (size file ≤ 5 * 1024 * 1024)%Z →
   let req' := set_req_file (set_req_user req decoded) (filename env file) in
   post_api_user_avatar env req st = user_avatar req' st ∧
   req_file req' = Some (filename env file) ∧ req_user req' = decoded)
  ∧ (startsWith (mimetype file) "image/" = false ∨ (5 * 1024 * 1024 < size file)%Z →
     (originalname file ≠ "" →
      ∃ err, post_api_user_avatar env req st =
               (st, Normal (Response 500 (ErrorPage err))))
     ∧ (originalname file = "" →
        post_api_user_avatar env req st =
          (st, Normal (Response 400 (Msg "No file uploaded"))))).
Proof.
  intros Hauth Hpart Hfile. unfold post_api_user_avatar.
  rewrite (auth_pass _ _ _ _ _ Hauth). unfold upload_single.
  cbn [req_part set_req_user]. rewrite Hpart. unfold fileFilter, fileSize. split.
  - intros Hname Hfield Hmime Hsize. split; [| done].
    rewrite bool_decide_eq_false_2, bool_decide_eq_true_2 by done. simpl.
    rewrite Hmime. by rewrite (proj2 (Z.ltb_ge _ _)).
  - intros Hbad. split.
    + intros Hname. rewrite bool_decide_eq_false_2 by done.
      case_bool_decide; simpl; [| by eexists].
      destruct (startsWith (mimetype file) "image/") eqn:Hmime; [| by eexists].
      destruct Hbad as [? | Hbig]; [done |].
      rewrite (proj2 (Z.ltb_lt _ _)) by done. by eexists.
    + intros Hname. rewrite bool_decide_eq_true_2 by done.
      by apply user_avatar_no_file.
Qed.

End Properties.

(* ===================================================================== *)
(** ** The properties at work on the reference instance *)
(* ===================================================================== *)

Section Witnesses.
Import Reference.
#[local] Existing Instance platform.

Lemma presented_bearer (who : ObjectId) (path_id : string) (body : gmap string jsval) :
  presented (request_of (Some (token_of who)) path_id body) (token_of who).
Proof.
  exists ("Bearer " +:+ token_of who). split; [done |]. split; [done |].
  apply (replace_prefixed "Bearer " "" (token_of who)).
Defined.

Lemma verify_token_of (t : Z) (who : ObjectId) :
  jwt_verify t (token_of who) = Some (token_payload who).
Proof.
  change (jwt_verify t (token_of who))
    with (if String.prefix "jwt." ("jwt." +:+ who)
          then Some (token_payload (string_drop (String.length "jwt.") ("jwt." +:+ who)))
          else None).
  by rewrite prefix_append, string_drop_append.
Defined.

Lemma authenticated_bearer (env : ambient) (who : ObjectId) (path_id : string)
    (body : gmap string jsval) :
  authenticated env (request_of (Some (token_of who)) path_id body)
                (token_payload who).
Proof.
  exists (token_of who). split; [apply presented_bearer | apply verify_token_of].
Defined.

Lemma caller_bearer (env : ambient) (who : ObjectId) (path_id : string)
    (body : gmap string jsval) :
  caller env (request_of (Some (token_of who)) path_id body) (JStr who).
Proof.
  exists (token_payload who). split; [apply authenticated_bearer | reflexivity].
Defined.

Lemma auth_gate_witness :
  auth env0 trips_list (request_of None "" ∅) db1 =
    (db1, Normal (Response 401 (Msg "No token, authorization denied")))
  ∧ auth env0 trips_list (request_of (Some "forged") "" ∅) db1 =
      (db1, Normal (Response 400 (Msg "Token is not valid")))
  ∧ ∃ req', auth env0 trips_list (list_as alice) db1 = trips_list req' db1 ∧
             req_user req' = token_payload alice ∧
             user_id (req_user req') = Normal (JStr alice) ∧
             req_body req' = req_body (list_as alice).
Proof.
  split; [| split].
  - apply (auth_gate env0 trips_list (request_of None "" ∅) db1). by left.
  - apply (auth_gate env0 trips_list (request_of (Some "forged") "" ∅) db1)
      with (t := "forged"); [| done].
    exists "Bearer forged". by vm_compute.
  - destruct (auth_gate env0 trips_list (list_as alice) db1) as (_ & _ & Hpass & _).
    destruct (Hpass (token_of alice) (token_payload alice))
      as (req' & Hrun & _ & Huser & _ & _ & Hbody & _);
      [apply presented_bearer | apply verify_token_of |].
    exists req'. split; [exact Hrun |]. split; [exact Huser |].
    split; [by rewrite Huser | exact Hbody].
Defined.

Lemma add_expense_not_owner_witness :
  post_api_trips_id_expenses env0 (add_sushi bob) db1 =
    (db1, Normal (Response 401 (Msg "Not authorized"))).
Proof.
  apply (add_expense_not_owner env0 (add_sushi bob) db1 tokyo_id tokyo (JStr bob)).
  - apply caller_bearer.
  - by split.
  - done.
Defined.

Lemma add_expense_missing_trip_witness :
  post_api_trips_id_expenses env0 add_sushi_nowhere db1 =
    (db1, Normal (Response 500 (Text "Server Error"))).
Proof.
  apply (add_expense_missing_trip env0 add_sushi_nowhere db1 (token_payload alice)).
  - apply authenticated_bearer.
  - intros k [= <-]. by vm_compute.
Defined.

Lemma add_expense_appends_witness :
  (∃ e t', trips db2 !! tokyo_id = Some t' ∧
           Trip.expenses t' = [e] ∧
           Expense.description (fields e) = "Sushi" ∧
           Expense.amount (fields e) = 40%Z ∧
           Expense.category (fields e) = Some Expense.Food)
  ∧ ∃ t'', trips db3 !! tokyo_id = Some t'' ∧
           Trip.expenses t'' = [sushi_at env0; sushi_at env1].
Proof.
  destruct (add_expense_appends env0 (add_sushi alice) db1 db2 tokyo_id tokyo
              (Response 200 (TripJson (push (Doc tokyo_id tokyo) (sushi_at env0)))))
    as (e & t' & He & Hsent & _ & Ht' & Hexp1 & _ & _ & Hagain).
  - apply caller_bearer.
  - by split.
  - by vm_compute.
  - done.
  - split.
    + destruct Hsent as (_ & Hd & Ha & Hc & _).
      exists e, t'. split; [exact Ht' |]. split; [exact Hexp1 |].
      change (Casted "Sushi" = Casted (Expense.description (fields e))) in Hd.
      change (Casted 40%Z = Casted (Expense.amount (fields e))) in Ha.
      change (Some (Some Expense.Food) = Some (Expense.category (fields e))) in Hc.
      injection Hd as <-. injection Ha as <-. injection Hc as <-. done.
    + destruct (Hagain env1 db3
                  (Response 200 (TripJson (push (push (Doc tokyo_id tokyo) (sushi_at env0))
                                                (sushi_at env1)))))
        as (e' & t'' & He' & _ & Ht'' & Hexp & _).
      * apply caller_bearer.
      * by vm_compute.
      * done.
      * exists t''. split; [done |]. rewrite Hexp.
        vm_compute in He, He'. by simplify_eq.
Defined.

Lemma create_trip_returns_witness :
  ∃ st' trip,
    post_api_trips env0 (create_tokyo alice) empty_db =
      (st', Normal (Response 200 (TripJson trip))) ∧
    Trip.destination (fields trip) = "Tokyo" ∧
    Trip.budget (fields trip) = 2000%Z ∧
    Trip.expenses (fields trip) = [] ∧
    Trip.user (fields trip) = alice.
Proof.
  destruct (create_trip_returns env0 (create_tokyo alice) empty_db alice "Tokyo" 2000)
    as [Hret Hrun].
  - apply caller_bearer.
  - done.
  - done.
  - done.
  - destruct Hrun as (st' & trip & Hrun); [done | done | done |].
    destruct (Hret st' _ Hrun eq_refl) as (trip' & [= <-] & Hd & Hb & He & Hu & _).
    by exists st', trip.
Defined.

Lemma create_trip_owner_from_token_witness :
  post_api_trips env0
      (set_req_body (create_tokyo alice)
         (<["user" := JStr bob]> (<["expenses" := JArr [JObj sushi]]>
            (req_body (create_tokyo alice))))) empty_db
    = post_api_trips env0 (create_tokyo alice) empty_db.
Proof.
  apply (create_trip_owner_from_token env0 (create_tokyo alice) empty_db
           (JStr bob) (JArr [JObj sushi])).
Defined.

Lemma list_trips_own_witness :
  ∃ l, get_api_trips env0 (list_as bob) db1 =
         (db1, Normal (Response 200 (TripsJson l))) ∧
       ∀ d, d ∈ l → _id d ≠ tokyo_id.
Proof.
  destruct (list_trips_own env0 (list_as bob) db1 bob) as (l & Hrun & _ & Hmem & _).
  - apply caller_bearer.
  - done.
  - exists l. split; [done |]. intros d [Hd Hu]%Hmem Heq.
    rewrite Heq in Hd. change (trips db1 !! tokyo_id) with (Some tokyo) in Hd.
    injection Hd as Hd. rewrite <- Hd in Hu. discriminate Hu.
Defined.

Lemma users_db1 (k : ObjectId) (u : User.t) :
  users db1 !! k = Some u → k = alice ∧ u = alice_user.
Proof.
  intros Hk. destruct (decide (k = alice)) as [-> | Hne].
  - change (users db1 !! alice) with (Some alice_user) in Hk. by injection Hk as <-.
  - unfold db1 in Hk. simpl in Hk. by rewrite lookup_singleton_ne in Hk.
Defined.



(** Alice registers, then creates her trip. *)
Lemma reachable_db1 : reachable db1.
Proof.
  pose (e1 := {| now := 1690000000000; fresh := alice; salt := "$2a$10$"; random := 0 |}).
  pose (e2 := {| now := 1690000001000; fresh := tokyo_id; salt := "$2a$10$"; random := 0 |}).
  pose (st1 := {| users := {[ alice := alice_user ]}; trips := ∅ |}).
  apply (reach_serve _ TripsCreate e2 (create_tokyo alice) st1 db1
           (Normal (Response 200 (TripJson (Doc tokyo_id tokyo))))).
  - apply (reach_serve _ Register e1
             (register_with "alice" "Alice@Example.com" "secret") empty_db st1
             (Normal (Response 200 (Session (token_of alice) alice "alice"
                                            "alice@example.com")))).
    + constructor.
    + by vm_compute.
  - by vm_compute.
Defined.

Lemma register_rejects_witness :
  post_api_register env0 (register_with "alice2" "ALICE@example.com" "pw") db1 =
    (db1, Normal (Response 400 (Msg "User already exists")))
  ∧ post_api_register env0
      (request_of None "" {[ "email" := JObj {[ "$ne" := JStr "nobody@example.com" ]};
                             "password" := JStr "pw" ]}) db1 =
      (db1, Normal (Response 400 (Msg "User already exists")))
  ∧ post_api_register env0 (register_with "bob" "not-an-email" "pw") db1 =
      (db1, Normal (Response 400 (Msg "Invalid Email Format"))).
Proof.
  split; [| split].
  - apply (register_rejects env0 (register_with "alice2" "ALICE@example.com" "pw") db1)
      with (matches := λ u, bool_decide (User.email u = toLowerCase "ALICE@example.com"));
      [reflexivity |].
    exists alice, alice_user. split; reflexivity.
  - apply (register_rejects env0 _ db1)
      with (matches := λ u, negb (bool_decide (lower "nobody@example.com" = User.email u)));
      [reflexivity |].
    exists alice, alice_user. split; reflexivity.
  - apply (register_rejects env0 (register_with "bob" "not-an-email" "pw") db1)
      with (e := "not-an-email") (p := "pw");
      [reflexivity | reflexivity | apply reachable_db1 | reflexivity].
Defined.

(** C4 as stated fails: a register request with a malformed e-mail
    address and no password is answered 500 "Server Error", because
    [bcrypt.hash] rejects before the document is validated; and so is a
    request whose e-mail address is an object, because the [findOne]
    filter does not cast. *)
Lemma register_invalid_email_without_password :
  prop (req_body register_without_password) "email" = JStr "not-an-email"
  ∧ isEmail (toLowerCase "not-an-email") = false
  ∧ reachable empty_db
  ∧ post_api_register env0 register_without_password empty_db =
      (empty_db, Normal (Response 500 (Text "Server Error")))
  ∧ post_api_register env0 register_without_password empty_db ≠
      (empty_db, Normal (Response 400 (Msg "Invalid Email Format")))
  ∧ castString (prop (req_body register_object_email) "email") = CastFails
  ∧ prop (req_body register_object_email) "password" = JStr "pw"
  ∧ post_api_register env0 register_object_email empty_db =
      (empty_db, Normal (Response 500 (Text "Server Error"))).
Proof.
  split; [done |]. split; [done |]. split; [constructor |].
  split; [by vm_compute |]. split; [by vm_compute |].
  split; [done |]. split; [done |]. by vm_compute.
Qed.

Lemma avatar_upload_constraints_witness :
  post_api_user_avatar env0 (upload_of (token_of alice) photo) db1 =
    user_avatar (set_req_file (set_req_user (upload_of (token_of alice) photo)
                                            (token_payload alice))
                              (filename env0 photo)) db1
  ∧ (∃ err, post_api_user_avatar env0 (upload_of (token_of alice) notes) db1 =
              (db1, Normal (Response 500 (ErrorPage err))))
  ∧ post_api_user_avatar env0 (upload_of (token_of alice) nameless) db1 =
      (db1, Normal (Response 400 (Msg "No file uploaded"))).
Proof.
  assert (∀ f, authenticated env0 (upload_of (token_of alice) f) (token_payload alice))
    as Hauth.
  { intros f. exists (token_of alice). split; [| done].
    exists (token_of alice). by vm_compute. }
  split; [| split].
  - apply (avatar_upload_constraints env0 _ db1 (token_payload alice) photo);
      [apply Hauth | done | done | done | done | done | by vm_compute].
  - apply (avatar_upload_constraints env0 _ db1 (token_payload alice) notes);
      [apply Hauth | done | done | by left | done].
  - apply (avatar_upload_constraints env0 _ db1 (token_payload alice) nameless);
      [apply Hauth | done | done | by left | done].
Defined.

End Witnesses.

(* ===================================================================== *)
(** ** Every route: answers, failures, invariants *)
(* ===================================================================== *)

Section Behaviour.
Context `{Platform}.

Ltac run :=
  cbv [bind ret throw lift read write try_catch json_msg send json next_err
       server_error req_user_user_id].

(** *** What validation guarantees *)

Lemma required_string_Some (c : cast string) (s : string) :
  required_string c = Some s → c = Casted s ∧ s ≠ "".
Proof.
  destruct c as [| |s']; simpl; try done. case_bool_decide; [done |].
  by intros [= <-].
Qed.

Lemma UserSchema_validate_inv (d : User.draft) (u : User.t) :
  UserSchema_validate d = Some u →
  User.d_username d = Casted (User.username u) ∧
  User.d_email d = Casted (User.email u) ∧
  User.d_password d = Casted (User.password u) ∧
  User.profilePicture u = "" ∧
  User.createdAt u = User.d_createdAt d ∧
  user_ok u.
Proof.
  unfold UserSchema_validate, user_ok. destruct d as [un em pw ca]; simpl.
  destruct (required_string un) as [un'|] eqn:Hun; [| done].
  destruct (required_string em) as [em'|] eqn:Hem; [| done].
  destruct (required_string pw) as [pw'|] eqn:Hpw; [| done]. simpl.
  destruct (isEmail em') eqn:Hmail; [| done]. intros [= <-]. simpl.
  apply required_string_Some in Hun as [-> ?].
  apply required_string_Some in Hem as [-> ?].
  by apply required_string_Some in Hpw as [-> ?].
Qed.

Lemma pushed_inv (env : ambient) (obj : gmap string jsval) (e : document Expense.t) :
  pushed env obj = Some e →
  _id e = fresh env ∧
  castString (prop obj "description") = Casted (Expense.description (fields e)) ∧
  castNumber (prop obj "amount") = Casted (Expense.amount (fields e)) ∧
  expense_ok e.
Proof.
  unfold pushed, ExpenseSchema_validate, expense_ok. simpl.
  destruct (required_string _) as [ds|] eqn:Hds; [| done]. simpl.
  destruct (castNumber _) as [| |a]; try done. simpl.
  destruct (enum_category _) as [c|]; [| done]. simpl.
  destruct (optional _) as [dt|]; [| done]. simpl. intros [= <-]. simpl.
  by apply required_string_Some in Hds as [-> ?].
Qed.

(** *** One request *)

Lemma known_200 : known_status 200. Proof. by left. Qed.
Lemma known_400 : known_status 400. Proof. right. by left. Qed.
Lemma known_401 : known_status 401. Proof. right. right. by left. Qed.
Lemma known_404 : known_status 404. Proof. do 3 right. by left. Qed.
Lemma known_500 : known_status 500. Proof. by do 4 right. Qed.

Lemma served_failure (st : db) (r : response) :
  known_status (status r) → served st (st, Normal r).
Proof. intros Hk. exists r. repeat split; [done | by constructor]. Qed.

Lemma served_success (st st' : db) (p : payload) :
  change st st' → served st (st', Normal (Response 200 p)).
Proof. intros Hc. exists (Response 200 p). repeat split; [apply known_200 | done | done]. Qed.

Create HintDb served.
#[local] Hint Resolve known_200 known_400 known_401 known_404 known_500 : served.

Ltac fails := apply served_failure; simpl; auto with served.

Lemma auth_served (env : ambient) (next : handler) :
  (∀ req st, served st (next req st)) →
  ∀ req st, served st (auth env next req st).
Proof.
  intros Hnext req st. unfold auth. run. repeat case_match; try fails. apply Hnext.
Qed.

Lemma upload_served (field : string) (env : ambient) (next : handler) :
  (∀ req st, served st (next req st)) →
  ∀ req st, served st (upload_single field env next req st).
Proof.
  intros Hnext req st. unfold upload_single. run.
  repeat case_match; try fails; apply Hnext.
Qed.

Lemma register_served (env : ambient) (req : request) (st : db) :
  served st (post_api_register env req st).
Proof.
  unfold post_api_register, User_findOne, User_save_new. run.
  repeat (case_match; simpl in *; simplify_eq); try fails.
  all: apply served_success.
  all: match goal with Hval : UserSchema_validate _ = Some ?u |- _ =>
         apply UserSchema_validate_inv in Hval
           as (_ & _ & Hpw & Hpic & _ & Hok); simpl in Hpw
       end.
  all: match goal with Hor : _ || _ = false |- _ =>
         apply orb_false_iff in Hor
           as [Hk%bool_decide_eq_false Hdup%bool_decide_eq_false]
       end.
  all: match goal with Hh : hash _ _ = Normal ?a |- _ =>
         unfold hash in Hh; case_match; simplify_eq
       end.
  all: eapply change_register; [by apply eq_None_not_Some | | done | | done | done];
         [| by simplify_eq].
  all: intros k' u' Hk' Heq;
       match type of Hdup with
       | ¬ is_Some (findOne ?p ?c) =>
           assert (findOne p c = None) as Hnone by by apply eq_None_not_Some
       end;
       eapply findOne_None in Hnone; [| exact Hk'];
       apply bool_decide_eq_false in Hnone; done.
Qed.

Lemma login_served (env : ambient) (req : request) (st : db) :
  served st (post_api_login env req st).
Proof.
  unfold post_api_login, User_findOne. run.
  repeat (case_match; simpl in *; simplify_eq); try fails.
  all: apply served_success; by constructor.
Qed.

Lemma auth_user_served (req : request) (st : db) : served st (auth_user req st).
Proof.
  unfold auth_user, User_findById. run.
  repeat (case_match; simpl in *; simplify_eq); try fails.
  all: apply served_success; by constructor.
Qed.

Lemma user_avatar_served (req : request) (st : db) : served st (user_avatar req st).
Proof.
  unfold user_avatar, User_findById, User_save, findById. run.
  repeat (case_match; simpl in *; simplify_eq); try fails.
  all: apply served_success.
  all: match goal with Hk : _ <$> users ?s !! ?k = Some ?d |- _ =>
         destruct (users s !! k) as [u|] eqn:Hu; simplify_eq/=;
         by eapply (change_picture _ _ k u)
       end.
Qed.

Lemma trips_list_served (req : request) (st : db) : served st (trips_list req st).
Proof.
  unfold trips_list, Trip_find_user. run.
  repeat (case_match; simpl in *; simplify_eq); try fails.
  all: apply served_success; by constructor.
Qed.

Lemma trips_create_served (env : ambient) (req : request) (st : db) :
  served st (trips_create env req st).
Proof.
  unfold trips_create, Trip_save_new. run.
  repeat (case_match; simpl in *; simplify_eq); try fails.
  all: apply served_success.
  all: match goal with Hval : TripSchema_validate _ = Some ?t |- _ =>
         apply TripSchema_validate_Some in Hval as (_ & _ & Hne & _ & _ & Hex)
       end.
  all: match goal with Hk : bool_decide _ = false |- _ =>
         apply bool_decide_eq_false in Hk
       end.
  all: eapply change_trip; [by apply eq_None_not_Some | done..].
Qed.

Lemma trips_id_expenses_served (env : ambient) (req : request) (st : db) :
  served st (trips_id_expenses env req st).
Proof.
  unfold trips_id_expenses, add_expense, Trip_findById, Trip_push_save, findById. run.
  repeat (case_match; simpl in *; simplify_eq); try fails.
  all: apply served_success.
  all: match goal with Hp : pushed _ _ = Some ?e |- _ =>
         apply pushed_inv in Hp as (_ & _ & _ & Hok)
       end.
  all: match goal with Hk : _ <$> trips ?s !! ?k = Some ?d |- _ =>
         destruct (trips s !! k) as [t|] eqn:Ht; simplify_eq/=;
         by eapply (change_expense _ _ k t)
       end.
Qed.

Lemma serve_served (r : route) (env : ambient) (req : request) (st : db) :
  served st (app r env req st).
Proof.
  destruct r; simpl.
  - apply register_served.
  - apply login_served.
  - apply auth_served, auth_user_served.
  - apply auth_served, upload_served, user_avatar_served.
  - apply auth_served, trips_list_served.
  - apply auth_served, trips_create_served.
  - apply auth_served, trips_id_expenses_served.
Qed.

Lemma serve_change (r : route) (env : ambient) (req : request) (st st' : db)
    (out : completion response) :
  app r env req st = (st', out) → change st st'.
Proof.
  intros Hrun. destruct (serve_served r env req st) as (r' & _ & _ & _ & Hc).
  by rewrite Hrun in Hc.
Qed.

(** X1. Whatever the request, every route answers: no error escapes a
    handler, and the status is one of 200, 400, 401, 404 and 500. *)
Theorem every_request_answered (r : route) (env : ambient) (req : request) (st : db) :
  ∃ st' resp, app r env req st = (st', Normal resp) ∧ known_status (status resp).
Proof.
  destruct (serve_served r env req st) as (resp & Hout & Hk & _ & _).
  exists (app r env req st).1, resp. split; [| done].
  destruct (app r env req st) as [st' out]. simpl in *. by subst.
Qed.

(** X2. A request that is not answered 200 leaves the store exactly as
    it was, on every route. *)
Theorem failure_leaves_store (r : route) (env : ambient) (req : request)
    (st st' : db) (resp : response) :
  app r env req st = (st', Normal resp) →
  status resp ≠ 200%Z →
  st' = st.
Proof.
  intros Hrun Hne. destruct (serve_served r env req st) as (r' & Hout & _ & Hsame & _).
  rewrite Hrun in Hout, Hsame. simpl in *. apply Hsame. congruence.
Qed.

Lemma auth_keeps (env : ambient) (next : handler) :
  (∀ req st st' out, next req st = (st', out) → st' = st) →
  ∀ req st st' out, auth env next req st = (st', out) → st' = st.
Proof.
  intros Hnext req st st' out. unfold auth. run.
  repeat case_match; try by intros [= <- _]. apply Hnext.
Qed.

(** X3. Logging in, reading one's profile and listing one's trips never
    write to the store, whatever the request and the answer. *)
Theorem read_only_routes (r : route) (env : ambient) (req : request)
    (st st' : db) (out : completion response) :
  read_only r = true →
  app r env req st = (st', out) →
  st' = st.
Proof.
  destruct r; try done; intros _; simpl.
  - unfold post_api_login, User_findOne. run.
    repeat (case_match; simpl in *; simplify_eq); by intros [= <- _].
  - apply auth_keeps. clear. intros req st st' out.
    unfold auth_user, User_findById. run.
    repeat (case_match; simpl in *; simplify_eq); by intros [= <- _].
  - apply auth_keeps. clear. intros req st st' out.
    unfold trips_list, Trip_find_user. run.
    repeat (case_match; simpl in *; simplify_eq); by intros [= <- _].
Qed.

(** X4. The profile, avatar and trip routes all stand behind the
    gatekeeper: without a token they answer 401, with a token that does
    not verify they answer 400, and in both cases the store is left as
    it was. *)
Theorem protected_routes_need_token (r : route) (env : ambient) (req : request)
    (st : db) :
  protected r = true →
  (header_Authorization req = None ∨ header_Authorization req = Some "" →
     app r env req st =
       (st, Normal (Response 401 (Msg "No token, authorization denied"))))
  ∧ (∀ t, presented req t → jwt_verify (now env) t = None →
       app r env req st = (st, Normal (Response 400 (Msg "Token is not valid")))).
Proof.
  intros Hp.
  assert (∃ next, app r env = auth env next) as [next ->]
    by (destruct r; try done; by eexists).
  split.
  - intros [Hh | Hh]; unfold auth; by rewrite Hh.
  - intros t (h & Hh & Hne & Ht) Hv. unfold auth. rewrite Hh.
    rewrite bool_decide_eq_false_2 by done. by rewrite Ht, Hv.
Qed.

(** *** Invariants of the store *)

Lemma change_store_ok (st st' : db) : change st st' → store_ok st → store_ok st'.
Proof.
  intros [-> | k u pl sl Hk _ Hok _ _ -> | k u path Hk -> | k t Hk Hd Hex ->
         | k t e Hk Hok ->] [Hus Hts]; [done | ..]; split; simpl; try done.
  - intros k' u'. destruct (decide (k = k')) as [<- | Hne].
    + rewrite lookup_insert_eq. by intros [= <-].
    + rewrite lookup_insert_ne by done. apply Hus.
  - intros k' u'. destruct (decide (k = k')) as [<- | Hne].
    + rewrite lookup_insert_eq. intros [= <-]. exact (Hus _ _ Hk).
    + rewrite lookup_insert_ne by done. apply Hus.
  - intros k' t'. destruct (decide (k = k')) as [<- | Hne].
    + rewrite lookup_insert_eq. intros [= <-]. split; [done |]. by rewrite Hex.
    + rewrite lookup_insert_ne by done. apply Hts.
  - intros k' t'. destruct (decide (k = k')) as [<- | Hne].
    + rewrite lookup_insert_eq. intros [= <-]. destruct (Hts k t Hk) as [Hd Hes].
      split; [done |]. simpl. apply Forall_app. split; [done |]. by constructor.
    + rewrite lookup_insert_ne by done. apply Hts.
Qed.

Lemma change_emails_unique (st st' : db) :
  change st st' → emails_unique st → emails_unique st'.
Proof.
  intros [-> | k u pl sl Hk Hfree _ _ _ -> | k u path Hk -> | k t Hk Hd Hex ->
         | k t e Hk Hok ->] Huniq; try done; intros k1 k2 u1 u2; simpl.
  - destruct (decide (k = k1)) as [<- | Hne1], (decide (k = k2)) as [<- | Hne2];
      try done.
    + rewrite lookup_insert_eq, lookup_insert_ne by done.
      intros [= <-] Hk2 Heq. by destruct (Hfree _ _ Hk2).
    + rewrite lookup_insert_ne, lookup_insert_eq by done.
      intros Hk1 [= <-] Heq. by destruct (Hfree _ _ Hk1).
    + rewrite !lookup_insert_ne by done. apply Huniq.
  - destruct (decide (k = k1)) as [<- | Hne1], (decide (k = k2)) as [<- | Hne2];
      try done.
    + rewrite lookup_insert_eq, lookup_insert_ne by done.
      intros [= <-] Hk2 Heq. by apply (Huniq _ _ _ _ Hk Hk2).
    + rewrite lookup_insert_ne, lookup_insert_eq by done.
      intros Hk1 [= <-] Heq. by apply (Huniq _ _ _ _ Hk1 Hk).
    + rewrite !lookup_insert_ne by done. apply Huniq.
Qed.

Lemma change_passwords_hashed (st st' : db) :
  change st st' → passwords_hashed st → passwords_hashed st'.
Proof.
  intros [-> | k u pl sl Hk _ _ Hpw _ -> | k u path Hk -> | k t Hk Hd Hex ->
         | k t e Hk Hok ->] Hh; try done; intros k' u'; simpl.
  - destruct (decide (k = k')) as [<- | Hne].
    + rewrite lookup_insert_eq. intros [= <-]. by exists pl, sl.
    + rewrite lookup_insert_ne by done. apply Hh.
  - destruct (decide (k = k')) as [<- | Hne].
    + rewrite lookup_insert_eq. intros [= <-]. exact (Hh _ _ Hk).
    + rewrite lookup_insert_ne by done. apply Hh.
Qed.

Lemma change_users_kept (st st' : db) (k : ObjectId) (u : User.t) :
  change st st' → users st !! k = Some u →
  ∃ u', users st' !! k = Some u' ∧ same_account u u'.
Proof.
  intros [-> | k0 u0 pl sl Hk0 _ _ _ _ -> | k0 u0 path Hk0 -> | k0 t Hk0 Hd Hex ->
         | k0 t e Hk0 Hok ->] Hk; simpl; try by exists u.
  - exists u. split; [| done]. rewrite lookup_insert_ne; [done | congruence].
  - destruct (decide (k0 = k)) as [<- | Hne].
    + rewrite lookup_insert_eq. eexists. split; [done |]. by simplify_eq.
    + exists u. by rewrite lookup_insert_ne.
Qed.

Lemma change_trips_grown (st st' : db) (k : ObjectId) (t : Trip.t) :
  change st st' → trips st !! k = Some t →
  ∃ t', trips st' !! k = Some t' ∧ grown t t'.
Proof.
  assert (grown t t) as Hrefl.
  { repeat split. exists []. by rewrite app_nil_r. }
  intros [-> | k0 u0 pl sl Hk0 _ _ _ _ -> | k0 u0 path Hk0 -> | k0 t0 Hk0 Hd Hex ->
         | k0 t0 e Hk0 Hok ->] Hk; simpl; try by exists t.
  - exists t. split; [| done]. rewrite lookup_insert_ne; [done | congruence].
  - destruct (decide (k0 = k)) as [<- | Hne].
    + rewrite lookup_insert_eq. eexists. split; [done |]. simplify_eq.
      repeat split. by exists [e].
    + exists t. by rewrite lookup_insert_ne.
Qed.

Lemma grown_trans (t1 t2 t3 : Trip.t) : grown t1 t2 → grown t2 t3 → grown t1 t3.
Proof.
  intros (Hu & Hd & Hb & Hs & m & Hm) (Hu' & Hd' & Hb' & Hs' & m' & Hm').
  repeat split; try congruence. exists (m ++ m')%list.
  by rewrite Hm', Hm, app_assoc.
Qed.

Lemma same_account_trans (u1 u2 u3 : User.t) :
  same_account u1 u2 → same_account u2 u3 → same_account u1 u3.
Proof. intros (?&?&?&?) (?&?&?&?). repeat split; congruence. Qed.

(** X5. In every store the server can reach, no two users have the same
    e-mail address. *)
Theorem reachable_emails_unique (st : db) : reachable st → emails_unique st.
Proof.
  induction 1 as [| r env req st1 st2 out _ IH Hrun].
  - intros k1 k2 u1 u2 Hk1. simpl in Hk1. by rewrite lookup_empty in Hk1.
  - by apply serve_change, change_emails_unique in Hrun.
Qed.

(** X6. In every store the server can reach, each user's password field
    holds a value of [bcrypt.hash]: the route never writes the password
    it was sent. *)
Theorem reachable_passwords_hashed (st : db) : reachable st → passwords_hashed st.
Proof.
  induction 1 as [| r env req st1 st2 out _ IH Hrun].
  - intros k u Hk. simpl in Hk. by rewrite lookup_empty in Hk.
  - by apply serve_change, change_passwords_hashed in Hrun.
Qed.

(** X7. In every store the server can reach, the stored documents
    satisfy their schemas: users have a non-empty username, password and
    e-mail address that passes the validator; trips have a non-empty
    destination and every expense has a non-empty description. *)
Theorem reachable_store_ok (st : db) : reachable st → store_ok st.
Proof.
  induction 1 as [| r env req st1 st2 out _ IH Hrun].
  - split; intros k x Hk; simpl in Hk; by rewrite lookup_empty in Hk.
  - by apply serve_change, change_store_ok in Hrun.
Qed.

(** X8. No route removes a user or edits an account: a stored user is
    still stored after any sequence of requests, with the same username,
    e-mail address, password and creation time. *)
Theorem users_never_removed (st st' : db) (k : ObjectId) (u : User.t) :
  reachable_from st st' →
  users st !! k = Some u →
  ∃ u', users st' !! k = Some u' ∧ same_account u u'.
Proof.
  induction 1 as [| r env req st1 st2 out _ IH Hrun]; intros Hk.
  - by exists u.
  - destruct (IH Hk) as (u1 & Hk1 & Hs1).
    apply serve_change in Hrun.
    destruct (change_users_kept _ _ _ _ Hrun Hk1) as (u2 & Hk2 & Hs2).
    exists u2. split; [done |]. by eapply same_account_trans.
Qed.

(** X9. Trips are append-only: after any sequence of requests a stored
    trip is still stored, with the same owner, destination, budget and
    start date, and its earlier expenses are a prefix of its expenses. *)
Theorem trips_append_only (st st' : db) (k : ObjectId) (t : Trip.t) :
  reachable_from st st' →
  trips st !! k = Some t →
  ∃ t', trips st' !! k = Some t' ∧ grown t t'.
Proof.
  induction 1 as [| r env req st1 st2 out _ IH Hrun]; intros Hk.
  - exists t. split; [done |]. repeat split. exists []. by rewrite app_nil_r.
  - destruct (IH Hk) as (t1 & Hk1 & Hg1).
    apply serve_change in Hrun.
    destruct (change_trips_grown _ _ _ _ Hrun Hk1) as (t2 & Hk2 & Hg2).
    exists t2. split; [done |]. by eapply grown_trans.
Qed.

(** *** Registering and logging in *)

Lemma register_run (env : ambient) (req : request) (st : db) (e p : string) :
  castString (prop (req_body req) "email") = Casted e →
  prop (req_body req) "password" = JStr p →
  post_api_register env req st =
    match findOne (λ u, bool_decide (User.email u = toLowerCase e)) (users st) with
    | Some _ => (st, Normal (Response 400 (Msg "User already exists")))
    | None =>
        match UserSchema_validate
                {| User.d_username :=
                     map_cast trim (castString (prop (req_body req) "username"));
                   User.d_email := Casted (toLowerCase e);
                   User.d_password := Casted (bcrypt_hash p (salt env));
                   User.d_createdAt := now env |} with
        | None => (st, Normal (Response 400 (Msg "Invalid Email Format")))
        | Some u =>
            if bool_decide (is_Some (users st !! fresh env)) ||
               bool_decide (is_Some (findOne (λ u', bool_decide (User.email u' = User.email u))
                                             (users st)))
            then (st, Normal (Response 500 (Text "Server Error")))
            else (set_users (<[fresh env := u]> (users st)) st,
                  Normal (Response 200
                            (Session (jwt_sign (now env) (token_payload (fresh env)))
                                     (fresh env) (User.username u) (User.email u))))
        end
    end.
Proof.
  intros He Hp. unfold post_api_register, User_findOne, User_save_new.
  rewrite (email_filter_cast _ _ He), Hp. run.
  destruct (findOne _ (users st)); [done |]. simpl.
  rewrite He. simpl. destruct (UserSchema_validate _) as [u|]; [| done].
  simpl. by destruct (_ || _).
Qed.

Lemma findOne_free (p : User.t -> bool) (c : gmap ObjectId User.t) :
  (∀ k u, c !! k = Some u → p u = false) → ¬ is_Some (findOne p c).
Proof. intros Hall%findOne_None. rewrite Hall. by intros [? ?]. Qed.

(** X10. A registration that passes every check stores one new user
    under the fresh id, with the username trimmed, the e-mail address in
    lower case, the password replaced by its bcrypt hash and an empty
    profile picture, and answers 200 with a token signed for that id. *)
Theorem register_success (env : ambient) (req : request) (st : db)
    (un e p : string) :
  castString (prop (req_body req) "username") = Casted un →
  castString (prop (req_body req) "email") = Casted e →
  prop (req_body req) "password" = JStr p →
  trim un ≠ "" → toLowerCase e ≠ "" → bcrypt_hash p (salt env) ≠ "" →
  isEmail (toLowerCase e) = true →
  users st !! fresh env = None →
  (∀ k u, users st !! k = Some u → User.email u ≠ toLowerCase e) →
  let u := {| User.username := trim un; User.email := toLowerCase e;
              User.password := bcrypt_hash p (salt env);
              User.profilePicture := ""; User.createdAt := now env |} in
  post_api_register env req st =
    (set_users (<[fresh env := u]> (users st)) st,
     Normal (Response 200
               (Session (jwt_sign (now env) (token_payload (fresh env)))
                        (fresh env) (trim un) (toLowerCase e)))).
Proof.
  intros Hun He Hp Hn1 Hn2 Hn3 Hmail Hfree Hnew u.
  rewrite (register_run _ _ _ _ _ He Hp), Hun.
  assert (findOne (λ u, bool_decide (User.email u = toLowerCase e)) (users st) = None)
    as ->.
  { apply findOne_None. intros k u' Hk. apply bool_decide_eq_false_2. eauto. }
  unfold UserSchema_validate. simpl.
  rewrite !bool_decide_eq_false_2 by done. simpl. rewrite Hmail. simpl.
  rewrite (bool_decide_eq_false_2 (is_Some (users st !! fresh env)))
    by (rewrite Hfree; by intros [? ?]).
  rewrite bool_decide_eq_false_2; [done |].
  apply findOne_free. intros k u' Hk. apply bool_decide_eq_false_2. eauto.
Qed.

Lemma login_run (env : ambient) (req : request) (st : db) (e p : string)
    (k : ObjectId) (u : User.t) :
  castString (prop (req_body req) "email") = Casted e →
  prop (req_body req) "password" = JStr p →
  users st !! k = Some u →
  User.email u = toLowerCase e →
  (∀ k' u', users st !! k' = Some u' → User.email u' = toLowerCase e → k' = k) →
  bcrypt_compare p (User.password u) = true →
  post_api_login env req st =
    (st, Normal (Response 200
                   (Session (jwt_sign (now env) (token_payload k)) k
                            (User.username u) (User.email u)))).
Proof.
  intros He Hp Hk Hu Honly Hok. unfold post_api_login, User_findOne.
  rewrite (email_filter_cast _ _ He), Hp. run.
  destruct (findOne _ (users st)) as [d|] eqn:Hfind.
  - apply findOne_Some in Hfind as [Hd Hem%bool_decide_eq_true].
    pose proof (Honly _ _ Hd Hem) as Hid. destruct d as [k' u']. simpl in *.
    subst k'. rewrite Hk in Hd. injection Hd as <-. by rewrite Hok.
  - eapply findOne_None in Hfind; [| exact Hk].
    apply bool_decide_eq_false in Hfind. done.
Qed.

(** X11. A user who has just registered can log in with the same e-mail
    address and password (given that [bcrypt.compare] accepts a password
    against its own hash): the login is answered 200 with the id the
    registration stored, and the store is not touched. *)
Theorem register_then_login (env env' : ambient) (req : request) (st st' : db)
    (r : response) (e p : string) :
  castString (prop (req_body req) "email") = Casted e →
  prop (req_body req) "password" = JStr p →
  post_api_register env req st = (st', Normal r) →
  status r = 200%Z →
  bcrypt_compare p (bcrypt_hash p (salt env)) = true →
  ∃ u, users st' !! fresh env = Some u ∧
       User.email u = toLowerCase e ∧
       post_api_login env' req st' =
         (st', Normal (Response 200
                         (Session (jwt_sign (now env') (token_payload (fresh env)))
                                  (fresh env) (User.username u) (User.email u)))).
Proof.
  intros He Hp Hrun Hok Hcmp. rewrite (register_run _ _ _ _ _ He Hp) in Hrun.
  destruct (findOne _ (users st)) as [d|] eqn:Hfind; [by simplify_eq/= |].
  destruct (UserSchema_validate _) as [u|] eqn:Hval; [| by simplify_eq/=].
  destruct (_ || _) eqn:Htaken; simplify_eq/=.
  apply UserSchema_validate_inv in Hval as (_ & Hem & Hpw & _ & _ & _).
  simpl in Hem, Hpw. injection Hem as Hem. injection Hpw as Hpw.
  exists u. split; [by rewrite lookup_insert_eq |]. split; [done |].
  apply (login_run env' req _ e p (fresh env) u); simpl; try done.
  - by rewrite lookup_insert_eq.
  - intros k' u' Hk' Hu'. destruct (decide (fresh env = k')) as [<- | Hne]; [done |].
    rewrite lookup_insert_ne in Hk' by done.
    eapply findOne_None in Hfind; [| exact Hk'].
    apply bool_decide_eq_false in Hfind. done.
  - by rewrite <- Hpw.
Qed.

(** X12. A login with the e-mail address of a stored user (in any
    letter case) and a password that [bcrypt.compare] accepts against the
    stored hash is answered 200 with that user's id, username and e-mail
    address and a token signed for the id; the store is not touched. *)
Theorem login_success (env : ambient) (req : request) (st : db) (e p : string)
    (k : ObjectId) (u : User.t) :
  castString (prop (req_body req) "email") = Casted e →
  prop (req_body req) "password" = JStr p →
  emails_unique st →
  users st !! k = Some u →
  User.email u = toLowerCase e →
  bcrypt_compare p (User.password u) = true →
  post_api_login env req st =
    (st, Normal (Response 200
                   (Session (jwt_sign (now env) (token_payload k)) k
                            (User.username u) (User.email u)))).
Proof.
  intros He Hp Huniq Hk Hu Hok. apply (login_run env req st e p k u); try done.
  intros k' u' Hk' Hu'. apply (Huniq _ _ _ _ Hk' Hk). congruence.
Qed.

(** *** Uploading an avatar *)

Lemma upload_accepts (env : ambient) (next : handler) (req : request) (st : db)
    (file : file_part) :
  req_part req = Some file →
  originalname file ≠ "" →
  fieldname file = "avatar" →
  startsWith (mimetype file) "image/" = true →
  (size file ≤ 5 * 1024 * 1024)%Z →
  upload_single "avatar" env next req st =
    next (set_req_file req (filename env file)) st.
Proof.
  intros Hpart Hname Hfield Hmime Hsize. unfold upload_single, fileFilter, fileSize.
  rewrite Hpart, bool_decide_eq_false_2, bool_decide_eq_true_2 by done. simpl.
  rewrite Hmime. by rewrite (proj2 (Z.ltb_ge _ _)).
Qed.

(** X13. An accepted avatar upload (a named file under the field
    "avatar", an image of at most 5 MiB) by a stored user sets that
    user's profile picture to "/uploads/" followed by the generated file
    name, answers 200 with that path, and changes nothing else: the
    other fields of the user, the other users and the trips stay as they
    were. *)
Theorem avatar_success (env : ambient) (req : request) (st : db)
    (uid : string) (file : file_part) (u : User.t) :
  caller env req (JStr uid) →
  canonical uid →
  users st !! uid = Some u →
  req_part req = Some file →
  originalname file ≠ "" →
  fieldname file = "avatar" →
  startsWith (mimetype file) "image/" = true →
  (size file ≤ 5 * 1024 * 1024)%Z →
  let path := "/uploads/" +:+ filename env file in
  ∃ st',
    post_api_user_avatar env req st = (st', Normal (Response 200 (Picture path))) ∧
    (∃ u', users st' !! uid = Some u' ∧
           User.profilePicture u' = path ∧ same_account u u') ∧
    (∀ k, k ≠ uid → users st' !! k = users st !! k) ∧
    trips st' = trips st.
Proof.
  intros (decoded & Hauth & Hid) Hcan Hu Hpart Hname Hfield Hmime Hsize path.
  unfold post_api_user_avatar. rewrite (auth_pass _ _ _ _ _ Hauth).
  rewrite (upload_accepts _ _ _ _ file) by done.
  unfold user_avatar, User_findById, User_save. run. simpl.
  rewrite Hid. unfold canonical in Hcan. rewrite Hcan. unfold findById.
  rewrite Hu. simpl. eexists. split; [done |]. simpl. split; [| split; [| done]].
  - eexists. rewrite lookup_insert_eq. by repeat split.
  - intros k Hne. by rewrite lookup_insert_ne.
Qed.

(** X14. The other answers of the avatar route, none of which writes to
    the store: 400 "No file uploaded" when the request carries no file
    or a file part without a file name; 500 from the upload middleware
    when a named file is sent under another field name than "avatar";
    404 "User not found" when the token's id names no stored user;
    500 "Server Error" when the token carries no user id. *)
Theorem avatar_other_answers (env : ambient) (req : request) (st : db)
    (decoded : jsval) :
  authenticated env req decoded →
  (req_part req = None ∨ (∃ file, req_part req = Some file ∧ originalname file = "") →
   req_file req = None →
   post_api_user_avatar env req st =
     (st, Normal (Response 400 (Msg "No file uploaded"))))
  ∧ (∀ file, req_part req = Some file → originalname file ≠ "" →
       fieldname file ≠ "avatar" →
       post_api_user_avatar env req st =
         (st, Normal (Response 500 (ErrorPage MulterError))))
  ∧ (∀ file, req_part req = Some file → originalname file ≠ "" →
       fieldname file = "avatar" →
       startsWith (mimetype file) "image/" = true →
       (size file ≤ 5 * 1024 * 1024)%Z →
       (∀ uid k, user_id decoded = Normal uid → castObjectId uid = Casted k →
                 users st !! k = None →
                 post_api_user_avatar env req st =
                   (st, Normal (Response 404 (Msg "User not found"))))
       ∧ (∀ err, user_id decoded = Throw err →
                 post_api_user_avatar env req st =
                   (st, Normal (Response 500 (Text "Server Error"))))).
Proof.
  intros Hauth. unfold post_api_user_avatar. rewrite (auth_pass _ _ _ _ _ Hauth).
  split; [| split].
  - intros Hnone Hfile. unfold upload_single. cbn [req_part set_req_user].
    assert (user_avatar (set_req_user req decoded) st =
              (st, Normal (Response 400 (Msg "No file uploaded")))) as Hno.
    { unfold user_avatar. run. cbn [req_file set_req_user]. by rewrite Hfile. }
    destruct Hnone as [Hpart | (file & Hpart & Hname)]; rewrite Hpart; [done |].
    by rewrite bool_decide_eq_true_2.
  - intros file Hpart Hname Hfield. unfold upload_single. cbn [req_part set_req_user].
    rewrite Hpart. by rewrite !bool_decide_eq_false_2.
  - intros file Hpart Hname Hfield Hmime Hsize.
    rewrite (upload_accepts _ _ _ _ file) by done.
    unfold user_avatar, User_findById. run. simpl. split.
    + intros uid k Hid Hcast Hk. rewrite Hid, Hcast. unfold findById.
      by rewrite Hk.
    + intros err Hid. by rewrite Hid.
Qed.

(** *** Expenses and trips *)

(** X15. An expense sent with a description and an amount only is stored
    with the category Other and the current time as its date (given that
    a number casts to the date it counts). *)
Theorem add_expense_defaults (env : ambient) (req : request) (st : db)
    (k : ObjectId) (t : Trip.t) (d : string) (a : Z) :
  caller env req (JStr (toString (Trip.user t))) →
  resolves req st k t →
  prop (req_body req) "description" = JStr d → d ≠ "" →
  prop (req_body req) "amount" = JNum a →
  req_body req !! "category" = None →
  req_body req !! "date" = None →
  castDate (JNum (now env)) = Casted (now env) →
  let e := Doc (fresh env)
               {| Expense.description := d; Expense.amount := a;
                  Expense.category := Some Expense.Other;
                  Expense.date := Some (now env) |} in
  post_api_trips_id_expenses env req st =
    (set_trips (<[k := fields (push (Doc k t) e)]> (trips st)) st,
     Normal (Response 200 (TripJson (push (Doc k t) e)))).
Proof.
  intros Hcaller Hres Hd Hne Ha Hc Hdt Hdate e.
  rewrite (add_expense_owner _ _ _ _ _ Hcaller Hres).
  assert (pushed env (req_body req) = Some e) as ->; [| done].
  unfold pushed, new_Expense, ExpenseSchema_validate. cbn [fields _id d_description
    d_amount d_category d_date].
  rewrite Hd, Ha. unfold prop at 1 2. rewrite Hc, Hdt. cbn [default with_default].
  rewrite Hdate. simpl. by rewrite bool_decide_eq_false_2.
Qed.

(** X16. An expense without a description, with an empty one, without an
    amount, or with a category outside the six of the schema is refused:
    the answer is 500 "Server Error" and the trip keeps its expenses. *)
Theorem add_expense_invalid (env : ambient) (req : request) (st : db)
    (k : ObjectId) (t : Trip.t) :
  caller env req (JStr (toString (Trip.user t))) →
  resolves req st k t →
  req_body req !! "description" = None ∨
  req_body req !! "description" = Some (JStr "") ∨
  req_body req !! "amount" = None ∨
  (∃ c, req_body req !! "category" = Some (JStr c) ∧ category_of_string c = None) →
  post_api_trips_id_expenses env req st =
    (st, Normal (Response 500 (Text "Server Error"))).
Proof.
  intros Hcaller Hres Hbad.
  rewrite (add_expense_owner _ _ _ _ _ Hcaller Hres).
  assert (pushed env (req_body req) = None) as ->; [| done].
  unfold pushed, new_Expense, ExpenseSchema_validate. cbn [fields _id d_description
    d_amount d_category d_date].
  destruct Hbad as [Hd | [Hd | [Ha | (c & Hc & Hnone)]]].
  - assert (prop (req_body req) "description" = JUndefined) as ->
      by (unfold prop; by rewrite Hd). done.
  - assert (prop (req_body req) "description" = JStr "") as ->
      by (unfold prop; by rewrite Hd). done.
  - assert (prop (req_body req) "amount" = JUndefined) as ->
      by (unfold prop; by rewrite Ha).
    destruct (required_string _); by simpl.
  - assert (prop (req_body req) "category" = JStr c) as ->
      by (unfold prop; by rewrite Hc).
    destruct (required_string _); [| done]. simpl.
    destruct (required _); [| done]. simpl. by rewrite Hnone.
Qed.

(** X17. A create-trip request without a destination, with an empty
    one, without a budget, or whose token carries no user id is refused
    with 500 "Server Error" (not 400), and no trip is stored. *)
Theorem create_trip_invalid (env : ambient) (req : request) (st : db)
    (decoded : jsval) :
  authenticated env req decoded →
  req_body req !! "destination" = None ∨
  req_body req !! "destination" = Some (JStr "") ∨
  req_body req !! "budget" = None ∨
  (∃ err, user_id decoded = Throw err) →
  post_api_trips env req st = (st, Normal (Response 500 (Text "Server Error"))).
Proof.
  intros Hauth Hbad. rewrite (create_trip_run _ _ _ _ Hauth).
  destruct Hbad as [Hd | [Hd | [Hb | (err & ->)]]]; [| | | done].
  all: destruct (user_id decoded) as [uid|]; [| done].
  all: unfold TripSchema_validate, new_Trip; cbn [fields d_user d_destination d_budget].
  - assert (prop (req_body req) "destination" = JUndefined) as ->
      by (unfold prop; by rewrite Hd).
    destruct (required (castObjectId uid)); by simpl.
  - assert (prop (req_body req) "destination" = JStr "") as ->
      by (unfold prop; by rewrite Hd).
    destruct (required (castObjectId uid)); by simpl.
  - assert (prop (req_body req) "budget" = JUndefined) as ->
      by (unfold prop; by rewrite Hb).
    destruct (required (castObjectId uid)); [simpl | done].
    destruct (required_string _); by simpl.
Qed.

Lemma list_trips_run (env : ambient) (req : request) (st : db) (uid : string) :
  caller env req (JStr uid) → canonical uid →
  get_api_trips env req st =
    (st, Normal (Response 200
                   (TripsJson (find (λ t, bool_decide (Trip.user t = uid)) (trips st))))).
Proof.
  intros (decoded & Hauth & Hid) Hcan.
  unfold get_api_trips. rewrite (auth_pass _ _ _ _ _ Hauth).
  unfold trips_list, Trip_find_user. run. simpl req_user. rewrite Hid.
  unfold canonical in Hcan. by rewrite Hcan.
Qed.

(** X18. A trip that was just created is at once usable by its owner:
    it is in the owner's next list of trips, and the owner's first valid
    expense on its id is accepted and becomes its only expense. *)
Theorem created_trip_usable (env : ambient) (req : request) (st st' : db)
    (uid : string) (trip : document Trip.t) :
  caller env req (JStr uid) →
  canonical uid →
  post_api_trips env req st = (st', Normal (Response 200 (TripJson trip))) →
  (∀ env' req', caller env' req' (JStr uid) →
     ∃ l, get_api_trips env' req' st' = (st', Normal (Response 200 (TripsJson l))) ∧
          trip ∈ l)
  ∧ (∀ env' req' e,
       caller env' req' (JStr uid) →
       params_id req' = _id trip → canonical (_id trip) →
       pushed env' (req_body req') = Some e →
       post_api_trips_id_expenses env' req' st' =
         (set_trips (<[_id trip := fields (push trip e)]> (trips st')) st',
          Normal (Response 200 (TripJson (push trip e))))
       ∧ Trip.expenses (fields (push trip e)) = [e]).
Proof.
  intros (decoded & Hauth & Hid) Hcan Hrun.
  destruct (create_trip_stored _ _ _ _ _ _ Hauth Hrun eq_refl)
    as (v & t & Hv & Hcast & Hex & [= ->] & ->).
  rewrite Hid in Hv. injection Hv as <-.
  unfold canonical in Hcan. rewrite Hcan in Hcast. injection Hcast as Hu.
  split.
  - intros env' req' Hcaller'. eexists. split; [by apply list_trips_run |].
    apply elem_of_find. simpl. rewrite lookup_insert_eq.
    split; [done |]. by apply bool_decide_eq_true_2.
  - intros env' req' e Hcaller' Hparam Hcan' He. simpl in *.
    rewrite (add_expense_owner env' req' _ (fresh env) t).
    + rewrite He. simpl. split; [done |]. by rewrite Hex.
    + unfold toString. by rewrite <- Hu.
    + split; [by rewrite Hparam | simpl; by rewrite lookup_insert_eq].
Qed.

End Behaviour.

(* ===================================================================== *)
(** ** These properties at work on the reference instance *)
(* ===================================================================== *)

Section BehaviourWitnesses.
Import Reference.
#[local] Existing Instance platform.

Lemma caller_upload_alice (file : file_part) :
  caller env0 (upload_of (token_of alice) file) (JStr alice).
Proof.
  exists (token_payload alice). split; [| reflexivity].
  exists (token_of alice). split; [| reflexivity].
  exists (token_of alice). by vm_compute.
Defined.

Lemma reachable_db1_db2 : reachable_from db1 db2.
Proof.
  apply (reach_serve _ TripsAddExpense env0 (add_sushi alice) db1 db2
           (Normal (Response 200 (TripJson (push (Doc tokyo_id tokyo) (sushi_at env0)))))).
  - constructor.
  - by vm_compute.
Defined.

Lemma failure_leaves_store_witness :
  (app TripsAddExpense env0 (add_sushi bob) db1).1 = db1.
Proof.
  apply (failure_leaves_store TripsAddExpense env0 (add_sushi bob) db1 _
           (Response 401 (Msg "Not authorized"))).
  - by vm_compute.
  - done.
Defined.

Lemma read_only_routes_witness :
  (app Login env0 (login_with "alice@example.com" "secret") db1).1 = db1.
Proof.
  apply (read_only_routes Login env0 (login_with "alice@example.com" "secret") db1 _
           (app Login env0 (login_with "alice@example.com" "secret") db1).2).
  - done.
  - by destruct (app Login env0 (login_with "alice@example.com" "secret") db1).
Defined.

Lemma protected_routes_need_token_witness :
  app TripsCreate env0 (request_of None "" ∅) db1 =
    (db1, Normal (Response 401 (Msg "No token, authorization denied"))).
Proof.
  apply (protected_routes_need_token TripsCreate env0 (request_of None "" ∅) db1);
    [done | by left].
Defined.

Lemma reachable_emails_unique_witness : emails_unique db1.
Proof. apply (reachable_emails_unique db1), reachable_db1. Defined.

Lemma reachable_passwords_hashed_witness :
  ∃ plain salt0, User.password alice_user = bcrypt_hash plain salt0.
Proof.
  apply (reachable_passwords_hashed db1 reachable_db1 alice alice_user). done.
Defined.

Lemma reachable_store_ok_witness : store_ok db1.
Proof. apply (reachable_store_ok db1), reachable_db1. Defined.

Lemma users_never_removed_witness :
  ∃ u', users db2 !! alice = Some u' ∧ same_account alice_user u'.
Proof.
  apply (users_never_removed db1 db2 alice alice_user); [apply reachable_db1_db2 | done].
Defined.

Lemma trips_append_only_witness :
  ∃ t', trips db2 !! tokyo_id = Some t' ∧ grown tokyo t'.
Proof.
  apply (trips_append_only db1 db2 tokyo_id tokyo); [apply reachable_db1_db2 | done].
Defined.

Lemma register_success_witness :
  ∃ st', post_api_register env0 (register_with "bob" "Bob@Example.com" "hunter2") db1 =
           (st', Normal (Response 200 (Session (token_of (fresh env0)) (fresh env0)
                                               "bob" "bob@example.com")))
         ∧ User.password <$> users st' !! fresh env0 = Some "$2a$10$hunter2".
Proof.
  eexists. split.
  - etransitivity.
    { apply (register_success env0 (register_with "bob" "Bob@Example.com" "hunter2") db1
               "bob" "Bob@Example.com" "hunter2"); try by vm_compute.
      intros k u [-> ->]%users_db1. by vm_compute. }
    by vm_compute.
  - by vm_compute.
Defined.

Lemma register_then_login_witness :
  let req := register_with "bob" "Bob@Example.com" "hunter2" in
  let st' := (post_api_register env0 req db1).1 in
  ∃ u, users st' !! fresh env0 = Some u ∧
       post_api_login env1 req st' =
         (st', Normal (Response 200 (Session (token_of (fresh env0)) (fresh env0)
                                             (User.username u) (User.email u)))).
Proof.
  intros req st'.
  destruct (register_then_login env0 env1 req db1 st'
              (Response 200 (Session (token_of (fresh env0)) (fresh env0)
                                     "bob" "bob@example.com"))
              "Bob@Example.com" "hunter2") as (u & Hu & _ & Hlogin).
  - reflexivity.
  - reflexivity.
  - vm_compute. reflexivity.
  - reflexivity.
  - vm_compute. reflexivity.
  - exists u. split; [exact Hu | exact Hlogin].
Defined.

Lemma login_success_witness :
  post_api_login env0 (login_with "ALICE@example.com" "secret") db1 =
    (db1, Normal (Response 200 (Session (token_of alice) alice
                                        "alice" "alice@example.com"))).
Proof.
  etransitivity.
  { apply (login_success env0 (login_with "ALICE@example.com" "secret") db1
             "ALICE@example.com" "secret" alice alice_user);
      [reflexivity | reflexivity | | reflexivity | reflexivity | reflexivity].
    intros k1 k2 u1 u2 [-> _]%users_db1 [-> _]%users_db1 _. reflexivity. }
  vm_compute. reflexivity.
Defined.

Lemma avatar_success_witness :
  ∃ st', post_api_user_avatar env0 (upload_of (token_of alice) photo) db1 =
           (st', Normal (Response 200
                           (Picture "/uploads/avatar-1700000000000-123456789.jpeg")))
         ∧ trips st' = trips db1.
Proof.
  destruct (avatar_success env0 (upload_of (token_of alice) photo) db1
              alice photo alice_user) as (st' & Hrun & _ & _ & Htrips);
    [apply caller_upload_alice | done | done | done | done | done | done | by vm_compute |].
  exists st'. split; [| done]. rewrite Hrun. by vm_compute.
Defined.

Lemma avatar_other_answers_witness :
  post_api_user_avatar env0 (list_as alice) db1 =
    (db1, Normal (Response 400 (Msg "No file uploaded"))).
Proof.
  apply (avatar_other_answers env0 (list_as alice) db1 (token_payload alice));
    [apply authenticated_bearer | by left | done].
Defined.

Lemma add_expense_defaults_witness :
  ∃ st' t', post_api_trips_id_expenses env0
              (request_of (Some (token_of alice)) tokyo_id
                 {[ "description" := JStr "Taxi"; "amount" := JNum 25 ]}) db1 =
              (st', Normal (Response 200 (TripJson t')))
            ∧ (Expense.category ∘ fields) <$> Trip.expenses (fields t') =
                [Some Expense.Other].
Proof.
  eexists _, _. split.
  - etransitivity.
    { apply (add_expense_defaults env0 _ db1 tokyo_id tokyo "Taxi" 25);
        try by vm_compute.
      apply caller_bearer. }
    by vm_compute.
  - by vm_compute.
Defined.

Lemma add_expense_invalid_witness :
  post_api_trips_id_expenses env0
    (request_of (Some (token_of alice)) tokyo_id
       {[ "description" := JStr "Beer"; "amount" := JNum 6;
          "category" := JStr "Drinks" ]}) db1 =
    (db1, Normal (Response 500 (Text "Server Error"))).
Proof.
  apply (add_expense_invalid env0 _ db1 tokyo_id tokyo);
    [apply caller_bearer | done |].
  do 3 right. by exists "Drinks".
Defined.

Lemma create_trip_invalid_witness :
  post_api_trips env0
    (request_of (Some (token_of alice)) "" {[ "budget" := JNum 2000 ]}) db1 =
    (db1, Normal (Response 500 (Text "Server Error"))).
Proof.
  apply (create_trip_invalid env0 _ db1 (token_payload alice));
    [apply authenticated_bearer | by left].
Defined.

Lemma created_trip_usable_witness :
  let st' := set_trips (<[fresh env0 := tokyo]> ∅) empty_db in
  ∃ l, get_api_trips env1 (list_as alice) st' =
         (st', Normal (Response 200 (TripsJson l)))
       ∧ Doc (fresh env0) tokyo ∈ l.
Proof.
  intros st'.
  destruct (created_trip_usable env0 (create_tokyo alice) empty_db st' alice
              (Doc (fresh env0) tokyo)) as [Hlist _];
    [apply caller_bearer | done | by vm_compute |].
  apply Hlist, caller_bearer.
Defined.

End BehaviourWitnesses.
